(** * The Deutsch-Josza notebook (reference/algorithms/deutsch_josza.ipynb)

    A shallow embedding of the notebook's code cells: the selection of the
    random oracle parameters, the construction of the circuit as a sequence
    of gate calls, the two backend runs and the filtering of the counts of
    the real-device run.

    The quantum SDK, numpy and matplotlib are not part of the repository.
    A call into them is an event of the run's trace; what such a call returns
    or raises is read from a [World], about which nothing is assumed. *)

From Stdlib Require Import ZArith PrimFloat FloatOps SpecFloat Uint63.
From stdpp Require Import gmap strings list fin_maps numbers.

Set Warnings "-inexact-float".
Local Open Scope Z_scope.

(** ** Python and numpy primitives the cells use *)

Module Py.

(** [t1 < t2] on tuples of integers: lexicographic, a proper prefix is
    smaller ([sys.version_info < (3,5)]). *)
Fixpoint tuple_lt (t1 t2 : list Z) : bool :=
  match t1, t2 with
  | _, [] => false
  | [], _ :: _ => true
  | v1 :: t1', v2 :: t2' =>
      if v1 <? v2 then true
      else if v2 <? v1 then false
      else tuple_lt t1' t2'
  end.

(** [int(f)] of a binary64 float: truncation towards zero; Python raises
    on an infinity or a NaN ([None] here). *)
Definition int_of_float (f : float) : option Z :=
  match Prim2SF f with
  | S754_zero _ => Some 0
  | S754_finite sign m e =>
      let mag := if 0 <=? e then Z.shiftl (Z.pos m) e
                 else Z.shiftr (Z.pos m) (- e) in
      Some (if sign then - mag else mag)
  | S754_infinity _ | S754_nan => None
  end.

(** [float(i)] of an integer [0 <= i < 2^63] (round to nearest even). *)
Definition float_of_int (i : Z) : float := PrimFloat.of_uint63 (Uint63.of_Z i).

(** The values of numpy's default integer type, and the wrap-around of its
    arithmetic. *)
Definition int64 (z : Z) : Prop := - 2 ^ 63 ≤ z < 2 ^ 63.

Definition wrap64 (z : Z) : Z := (z + 2 ^ 63) `mod` 2 ^ 64 - 2 ^ 63.

(** [np.sum] of a list of integers that fit [int64]: numpy makes an array of
    [int64] of them and adds with wrap-around. (A list with an integer
    outside [int64] gets another element type; the statements about sums
    below assume that the summed counts fit.) On the empty list numpy
    answers the float [0.0], which is equal to the integer [0] as a Python
    number and as a dictionary value; the embedding keeps the number. *)
Definition np_sum (l : list Z) : Z := foldl (λ acc x, wrap64 (acc + x)) 0 l.

(** The sum of a list of integers, as a number. *)
Definition total (l : list Z) : Z := foldr Z.add 0 l.

(** [d.items()] of a dictionary. The order of the items (Python keeps the
    order of insertion) is not kept by [gmap]; the cells only sum over the
    items and rebuild dictionaries from them. *)
Definition items (d : gmap string Z) : list (string * Z) := map_to_list d.

(** [{k: v for k, v in l}]: later items win. *)
Definition dict_of (l : list (string * Z)) : gmap string Z :=
  foldl (λ d kv, <[kv.1 := kv.2]> d) ∅ l.

(** The truth value of an integer ([if (a & (1 << i)):]). *)
Definition truthy (z : Z) : bool := negb (z =? 0).

End Py.

(** ** Registers, gates and the events of a run *)

Record register := Register { reg_name : string; reg_size : nat }.

(** [qr[i]], [cr[i]]: a register and an index into it. *)
Definition bit : Type := register * nat.

Inductive gate :=
| gate_h (q : bit)
| gate_x (q : bit)
| gate_iden (q : bit)
| gate_cx (ctl tgt : bit)
| gate_barrier
| gate_measure (q c : bit).

Inductive event :=
| EvSetApi
| EvRandint (low high : Z)
| EvPrint (msg : string) (arg : option Z)
| EvCreateQuantumRegister (r : register)
| EvCreateClassicalRegister (r : register)
| EvCreateCircuit (name : string) (qregs cregs : list register)
| EvGate (g : gate)
| EvExecute (names : list string) (backend : string) (shots : Z) (timeout : option Z)
| EvGetCounts (results : nat) (name : string)
| EvPlotHistogram (counts : gmap string Z)
| EvPrintDict (d : gmap string Z).

(** An error that ends a run: raised by a [raise] statement of the notebook,
    by the Python runtime on an expression of the notebook (an unbound name,
    [int] of an infinity), by numpy, or by a call into the SDK. *)
Inductive error :=
| NotebookException (msg : string)
| PythonError (kind : string)
| NumpyValueError (msg : string)
| SdkError (msg : string).

(** What the external world answers. [results] are opaque handles. *)
Record World := {
  version_info : list Z;
  entropy : nat → Z;
  set_api_outcome : option string;
  execute_outcome : list gate → string → Z → option Z → string + nat;
  get_counts_outcome : nat → string → string + gmap string Z;
  plot_histogram_outcome : gmap string Z → option string
}.

Record state := State { trace : list event; draws : nat }.

Definition initial : state := State [] 0.

(** ** The monad of a run: a trace, a generator position, and an error *)

Definition M (A : Type) : Type := state → (error + A) * state.

#[global] Instance M_ret : MRet M := λ A a s, (inr a, s).
#[global] Instance M_bind : MBind M := λ A B f m s,
  match m s with
  | (inl e, s') => (inl e, s')
  | (inr a, s') => f a s'
  end.

Definition raise {A} (e : error) : M A := λ s, (inl e, s).

Definition emit (ev : event) : M unit :=
  λ s, (inr (), State (trace s ++ [ev]) (draws s)).

(** [for x in l: body(x)] *)
Fixpoint for_each {A} (l : list A) (body : A → M unit) : M unit :=
  match l with
  | [] => mret ()
  | x :: l' => body x ;; for_each l' body
  end.

Definition range (n : nat) : list nat := seq 0 n.

(** The gates appended so far: the gate calls of the trace, in order. *)
Definition gates_of (tr : list event) : list gate :=
  omap (λ ev, match ev with EvGate g => Some g | _ => None end) tr.

(** ** External calls *)

Section Run.

Context (w : World).

(** [np.random.randint(low, high)]: an integer of the half-open interval
    [low, high), chosen by the generator. The numbers are drawn as [int64]:
    numpy raises ValueError when [low] is below [-2^63] or [high] above
    [2^63], and on an empty interval. The generator's choice is the world's
    [entropy] at the current position, reduced into the interval: every
    integer of the interval can come out ([randint_onto] below), and nothing
    else. *)
Definition randint (low high : Z) : M Z := λ s,
  let tr := trace s ++ [EvRandint low high] in
  if decide (low < - 2 ^ 63)
  then (inl (NumpyValueError "low is out of bounds for int64"), State tr (draws s))
  else if decide (2 ^ 63 < high)
  then (inl (NumpyValueError "high is out of bounds for int64"), State tr (draws s))
  else if decide (low < high)
  then (inr (low + entropy w (draws s) `mod` (high - low)), State tr (S (draws s)))
  else (inl (NumpyValueError "low >= high"), State tr (draws s)).

Definition print (msg : string) (arg : option Z) : M unit := emit (EvPrint msg arg).

Definition set_api : M unit :=
  emit EvSetApi ;;
  match set_api_outcome w with
  | Some e => raise (SdkError e)
  | None => mret ()
  end.

(** A register has a positive size: the SDK raises
    QISKitError('register size must be positive') otherwise. *)
Definition register_size_error : string := "register size must be positive".

Definition create_quantum_register (name : string) (size : nat) : M register :=
  emit (EvCreateQuantumRegister (Register name size)) ;;
  if decide (size = 0%nat) then raise (SdkError register_size_error)
  else mret (Register name size).

Definition create_classical_register (name : string) (size : nat) : M register :=
  emit (EvCreateClassicalRegister (Register name size)) ;;
  if decide (size = 0%nat) then raise (SdkError register_size_error)
  else mret (Register name size).

Definition create_circuit (name : string) (qregs cregs : list register) : M unit :=
  emit (EvCreateCircuit name qregs cregs).

(** A gate call on [djCircuit] appends the gate to the circuit. *)
Definition append (g : gate) : M unit := emit (EvGate g).

(** [Q_program.execute(names, backend=, shots=, timeout=)]: the backend is
    handed the circuit as built so far. *)
Definition execute (names : list string) (backend : string) (shots : Z)
    (timeout : option Z) : M nat := λ s,
  let s' := State (trace s ++ [EvExecute names backend shots timeout]) (draws s) in
  match execute_outcome w (gates_of (trace s)) backend shots timeout with
  | inl e => (inl (SdkError e), s')
  | inr results => (inr results, s')
  end.

Definition get_counts (results : nat) (name : string) : M (gmap string Z) :=
  emit (EvGetCounts results name) ;;
  match get_counts_outcome w results name with
  | inl e => raise (SdkError e)
  | inr counts => mret counts
  end.

Definition plot_histogram (counts : gmap string Z) : M unit :=
  emit (EvPlotHistogram counts) ;;
  match plot_histogram_outcome w counts with
  | Some e => raise (SdkError e)
  | None => mret ()
  end.

(** ** The code cells *)

(** Cell 5: the check of the Python version. *)
Definition cell5 : M unit :=
  if Py.tuple_lt (version_info w) [3; 5]
  then raise (NotebookException "Please use Python version 3.5 or greater.")
  else mret ().

Definition circuitName : string := "DeutschJosza".

(** Cell 9, first part: the oracle parameters. [a] is bound only on the
    balanced branch. *)
Definition select_parameters (n : nat) : M (Z * Z * option Z) :=
  oracleType ← randint 0 2;
  oracleValue ← randint 0 2;
  a ← (if decide (oracleType = 0)
       then print "The oracle returns a constant value " (Some oracleValue) ;;
            mret None
       else print "The oracle returns a balanced function" None ;;
            a ← randint 1 (2 ^ Z.of_nat n);
            mret (Some a));
  mret (oracleType, oracleValue, a).

(** Cell 9, between the two barriers: the oracle. *)
Definition oracle (qr : register) (n : nat) (oracleType oracleValue : Z)
    (a : option Z) : M unit :=
  if decide (oracleType = 0)
  then if decide (oracleValue = 1)
       then append (gate_x (qr, n))
       else append (gate_iden (qr, n))
  else for_each (range n) (λ i,
         match a with
         | None => raise (PythonError "NameError: name 'a' is not defined")
         | Some a =>
             if Py.truthy (Z.land a (Z.shiftl 1 (Z.of_nat i)))
             then append (gate_cx (qr, i) (qr, n))
             else mret ()
         end).

(** Cell 9, from the registers on. *)
Definition build_circuit (n : nat) (oracleType oracleValue : Z)
    (a : option Z) : M unit :=
  qr ← create_quantum_register "qr" (n + 1);
  cr ← create_classical_register "cr" n;
  create_circuit circuitName [qr] [cr] ;;
  for_each (range n) (λ i, append (gate_h (qr, i))) ;;
  append (gate_x (qr, n)) ;;
  append (gate_h (qr, n)) ;;
  append gate_barrier ;;
  oracle qr n oracleType oracleValue a ;;
  append gate_barrier ;;
  for_each (range n) (λ i, append (gate_h (qr, i))) ;;
  for_each (range n) (λ i, append (gate_measure (qr, i) (cr, i))).

Definition cell9 (n : nat) : M unit :=
  set_api ;;
  '(oracleType, oracleValue, a) ← select_parameters n;
  build_circuit n oracleType oracleValue a.

(** Cell 11: the run on the simulator. *)
Definition cell11 : M unit :=
  let backend := "ibmqx_hpc_qasm_simulator" in
  let shots := 1000 in
  results ← execute [circuitName] backend shots None;
  answer ← get_counts results circuitName;
  plot_histogram answer.

(** [int(0.03 * shots)] *)
Definition threshold_of (shots : Z) : option Z :=
  Py.int_of_float (PrimFloat.mul 0.03%float (Py.float_of_int shots)).

(** Cell 13, after the counts are fetched: the small counts are summed
    into one entry. *)
Definition filter_counts (answer : gmap string Z) (threshold : Z) : gmap string Z :=
  let filteredAnswer :=
    Py.dict_of (filter (λ kv, threshold ≤ kv.2) (Py.items answer)) in
  let removedCounts :=
    Py.np_sum ((filter (λ kv, kv.2 < threshold) (Py.items answer)).*2) in
  <["other_bitstring" := removedCounts]> filteredAnswer.

(** Cell 13: the run on the real device. *)
Definition cell13 : M unit :=
  let backend := "ibmqx5" in
  let shots := 1000 in
  results ← execute [circuitName] backend shots (Some 480);
  answer ← get_counts results circuitName;
  threshold ← match threshold_of shots with
              | Some t => mret t
              | None => raise (PythonError "OverflowError")
              end;
  let filteredAnswer := filter_counts answer threshold in
  plot_histogram filteredAnswer ;;
  emit (EvPrintDict filteredAnswer).

(** Cell 7 *)
Definition n : nat := 15.

(** The notebook, run from the top. *)
Definition notebook : M unit :=
  cell5 ;; cell9 n ;; cell11 ;; cell13.

End Run.

(** ** The circuit as data *)

(** The trace of the circuit-construction step, and the gates it appends. *)
Definition build_trace (n : nat) (oracleType oracleValue : Z) (a : option Z) : list event :=
  trace (build_circuit n oracleType oracleValue a initial).2.

Definition djCircuit (n : nat) (oracleType oracleValue : Z) (a : option Z) : list gate :=
  gates_of (build_trace n oracleType oracleValue a).

(** The gates between the two barriers. *)
Definition oracle_gates (qr : register) (n : nat) (oracleType oracleValue : Z)
    (a : option Z) : list gate :=
  gates_of (trace (oracle qr n oracleType oracleValue a initial).2).

(** The registers cell 9 creates. *)
Definition qr_of (n : nat) : register := Register "qr" (n + 1).
Definition cr_of (n : nat) : register := Register "cr" n.

(** The gates before the oracle and after it. *)
Definition circuit_prefix (n : nat) : list gate :=
  ((λ i, gate_h (qr_of n, i)) <$> range n)
  ++ [gate_x (qr_of n, n); gate_h (qr_of n, n); gate_barrier].

Definition circuit_suffix (n : nat) : list gate :=
  gate_barrier :: ((λ i, gate_h (qr_of n, i)) <$> range n)
  ++ ((λ i, gate_measure (qr_of n, i) (cr_of n, i)) <$> range n).

(** The parameters with which the construction step can be entered: [a] is
    bound unless the oracle is constant. *)
Definition parameters_bound (oracleType : Z) (a : option Z) : Prop :=
  oracleType = 0 ∨ is_Some a.

(** The measurements of a circuit, in order, and the classical registers a
    trace creates. *)
Definition measurements (gs : list gate) : list (bit * bit) :=
  omap (λ g, match g with gate_measure q c => Some (q, c) | _ => None end) gs.

Definition classical_registers (tr : list event) : list register :=
  omap (λ ev, match ev with EvCreateClassicalRegister r => Some r | _ => None end) tr.

(** ** The boolean function of the oracle

    [gate_x], [gate_iden] and [gate_cx] permute the basis states. A basis
    state of the quantum register is an integer: bit [i] is the value of
    [qr[i]]. *)

Definition flip (s : Z) (q : nat) : Z := Z.lxor s (Z.shiftl 1 (Z.of_nat q)).

Definition apply_classical (g : gate) (s : Z) : option Z :=
  match g with
  | gate_x q => Some (flip s q.2)
  | gate_iden _ | gate_barrier => Some s
  | gate_cx ctl tgt => Some (if Z.testbit s (Z.of_nat ctl.2) then flip s tgt.2 else s)
  | gate_h _ | gate_measure _ _ => None
  end.

Fixpoint run_classical (gs : list gate) (s : Z) : option Z :=
  match gs with
  | [] => Some s
  | g :: gs' => s' ← apply_classical g s; run_classical gs' s'
  end.

(** The value the gates [gs] leave in the answer qubit [qr[n]] on the query
    [x] (an [n]-bit integer, so the answer qubit starts at 0). *)
Definition oracle_function (n : nat) (gs : list gate) (x : Z) : option Z :=
  s ← run_classical gs x; Some (Z.b2z (Z.testbit s (Z.of_nat n))).

(** The parity of the [n] low bits of [z]. *)
Definition parity_bits (n : nat) (z : Z) : bool :=
  foldr xorb false ((λ i, Z.testbit z (Z.of_nat i)) <$> seq 0 n).

Definition parity (n : nat) (z : Z) : Z := Z.b2z (parity_bits n z).

(** The [2^n] queries. *)
Definition inputs (n : nat) : list Z := seqZ 0 (2 ^ Z.of_nat n).

(** The number of queries on which [f] answers [v]. *)
Definition count_outputs (f : Z → option Z) (v : Z) (xs : list Z) : nat :=
  length (filter (λ x, f x = Some v) xs).

(** ** Reasoning about runs *)

(** [p] cannot fail: from every state it returns [r], having appended the
    events [evs] and drawn nothing. *)
Definition emits {A} (p : M A) (r : A) (evs : list event) : Prop :=
  ∀ s, p s = (inr r, State (trace s ++ evs) (draws s)).

(** The gates of the balanced oracle with target [tgt] after [k] rounds of
    its loop. *)
Definition cx_gates (qr : register) (tgt : nat) (a : Z) (k : nat) : list gate :=
  concat ((λ i, if Z.testbit a (Z.of_nat i) then [gate_cx (qr, i) (qr, tgt)] else [])
            <$> range k).

(** ** The shape of a run

    What the cells do, spelled out: the parameters a generator position
    yields, the events of each step, and the ways a run can end. The lemmas
    of the second part show that the cells follow these descriptions. *)

Definition draw (w : World) (d : nat) (low high : Z) : Z :=
  low + entropy w d `mod` (high - low).

(** The parameters selected when the generator is at position [d]. *)
Definition selected (w : World) (n : nat) (d : nat) : Z * Z * option Z :=
  let oracleType := draw w d 0 2 in
  let oracleValue := draw w (S d) 0 2 in
  (oracleType, oracleValue,
   if decide (oracleType = 0) then None
   else Some (draw w (S (S d)) 1 (2 ^ Z.of_nat n))).

Definition selection_trace (n : nat) (p : Z * Z * option Z) : list event :=
  [EvRandint 0 2; EvRandint 0 2]
  ++ (if decide (p.1.1 = 0)
      then [EvPrint "The oracle returns a constant value " (Some p.1.2)]
      else [EvPrint "The oracle returns a balanced function" None;
            EvRandint 1 (2 ^ Z.of_nat n)]).

Definition build_events (n : nat) (p : Z * Z * option Z) : list event :=
  [EvCreateQuantumRegister (qr_of n); EvCreateClassicalRegister (cr_of n);
   EvCreateCircuit circuitName [qr_of n] [cr_of n]]
  ++ (EvGate <$> (circuit_prefix n
                  ++ oracle_gates (qr_of n) n p.1.1 p.1.2 p.2
                  ++ circuit_suffix n)).

(** The trace of cell 9 when [set_api] succeeds. *)
Definition cell9_trace (w : World) (n : nat) (d : nat) : list event :=
  EvSetApi :: selection_trace n (selected w n d) ++ build_events n (selected w n d).

Definition simulator : string := "ibmqx_hpc_qasm_simulator".
Definition device : string := "ibmqx5".

(** The ways cell 13 can end, entered with the trace [tr1]. *)
Inductive device_runs_from (w : World) (tr1 : list event) : error + unit → list event → Prop :=
| device_execute_fails e :
    execute_outcome w (gates_of tr1) device 1000 (Some 480) = inl e →
    device_runs_from w tr1 (inl (SdkError e))
      [EvExecute [circuitName] device 1000 (Some 480)]
| device_get_counts_fails r e :
    execute_outcome w (gates_of tr1) device 1000 (Some 480) = inr r →
    get_counts_outcome w r circuitName = inl e →
    device_runs_from w tr1 (inl (SdkError e))
      [EvExecute [circuitName] device 1000 (Some 480); EvGetCounts r circuitName]
| device_plot_fails r answer e :
    execute_outcome w (gates_of tr1) device 1000 (Some 480) = inr r →
    get_counts_outcome w r circuitName = inr answer →
    plot_histogram_outcome w (filter_counts answer 30) = Some e →
    device_runs_from w tr1 (inl (SdkError e))
      [EvExecute [circuitName] device 1000 (Some 480); EvGetCounts r circuitName;
       EvPlotHistogram (filter_counts answer 30)]
| device_succeeds r answer :
    execute_outcome w (gates_of tr1) device 1000 (Some 480) = inr r →
    get_counts_outcome w r circuitName = inr answer →
    plot_histogram_outcome w (filter_counts answer 30) = None →
    device_runs_from w tr1 (inr ())
      [EvExecute [circuitName] device 1000 (Some 480); EvGetCounts r circuitName;
       EvPlotHistogram (filter_counts answer 30);
       EvPrintDict (filter_counts answer 30)].

(** The ways cells 11 and 13 can end, entered with the trace [tr0]: the
    result and the events added. *)
Inductive backend_runs (w : World) (tr0 : list event) : error + unit → list event → Prop :=
| simulator_execute_fails e :
    execute_outcome w (gates_of tr0) simulator 1000 None = inl e →
    backend_runs w tr0 (inl (SdkError e)) [EvExecute [circuitName] simulator 1000 None]
| simulator_get_counts_fails r e :
    execute_outcome w (gates_of tr0) simulator 1000 None = inr r →
    get_counts_outcome w r circuitName = inl e →
    backend_runs w tr0 (inl (SdkError e))
      [EvExecute [circuitName] simulator 1000 None; EvGetCounts r circuitName]
| simulator_plot_fails r answer e :
    execute_outcome w (gates_of tr0) simulator 1000 None = inr r →
    get_counts_outcome w r circuitName = inr answer →
    plot_histogram_outcome w answer = Some e →
    backend_runs w tr0 (inl (SdkError e))
      [EvExecute [circuitName] simulator 1000 None; EvGetCounts r circuitName;
       EvPlotHistogram answer]
| device_runs r answer res evs :
    execute_outcome w (gates_of tr0) simulator 1000 None = inr r →
    get_counts_outcome w r circuitName = inr answer →
    plot_histogram_outcome w answer = None →
    device_runs_from w
      (tr0 ++ [EvExecute [circuitName] simulator 1000 None; EvGetCounts r circuitName;
               EvPlotHistogram answer]) res evs →
    backend_runs w tr0 res
      ([EvExecute [circuitName] simulator 1000 None; EvGetCounts r circuitName;
        EvPlotHistogram answer] ++ evs).

(** The ways a run of the notebook can end: the result and the trace. *)
Inductive notebook_runs (w : World) : error + unit → list event → Prop :=
| version_check_fails :
    Py.tuple_lt (version_info w) [3; 5] = true →
    notebook_runs w (inl (NotebookException "Please use Python version 3.5 or greater.")) []
| set_api_fails e :
    Py.tuple_lt (version_info w) [3; 5] = false →
    set_api_outcome w = Some e →
    notebook_runs w (inl (SdkError e)) [EvSetApi]
| backends_run res evs :
    Py.tuple_lt (version_info w) [3; 5] = false →
    set_api_outcome w = None →
    backend_runs w (cell9_trace w n 0) res evs →
    notebook_runs w res (cell9_trace w n 0 ++ evs).

(** ** Sample worlds, on which the statements below are exercised *)

Definition sample_counts : gmap string Z :=
  {[ "000000000000100" := 950; "000000000000110" := 30; "000000000000000" := 20 ]}.

(** Python 3.6.4; the generator selects a balanced oracle with mask 4; every
    call succeeds. *)
Definition sample_world : World := {|
  version_info := [3; 6; 4];
  entropy := λ d, Z.of_nat d + 1;
  set_api_outcome := None;
  execute_outcome := λ _ backend _ _, inr (if decide (backend = device) then 1 else 0)%nat;
  get_counts_outcome := λ _ _, inr sample_counts;
  plot_histogram_outcome := λ _, None
|}.

(** The same under Python 3.4.3. *)
Definition old_python_world : World := {|
  version_info := [3; 4; 3];
  entropy := entropy sample_world;
  set_api_outcome := None;
  execute_outcome := execute_outcome sample_world;
  get_counts_outcome := get_counts_outcome sample_world;
  plot_histogram_outcome := plot_histogram_outcome sample_world
|}.

(** The same with a device whose job times out. *)
Definition timeout_world : World := {|
  version_info := [3; 6; 4];
  entropy := entropy sample_world;
  set_api_outcome := None;
  execute_outcome := λ _ backend _ _,
    if decide (backend = device) then inl "QISKitError: timeout" else inr 0%nat;
  get_counts_outcome := get_counts_outcome sample_world;
  plot_histogram_outcome := plot_histogram_outcome sample_world
|}.

(** ** Counts dictionaries *)

(** The sum of the values of [d], as a number. *)
Definition values_sum (d : gmap string Z) : Z := Py.total ((map_to_list d).*2).

(** The entries of [answer] with a count of at least [threshold], and those
    with a smaller count. *)
Definition significant (threshold : Z) (answer : gmap string Z) : gmap string Z :=
  filter (λ kv, threshold ≤ kv.2) answer.

Definition insignificant (threshold : Z) (answer : gmap string Z) : gmap string Z :=
  filter (λ kv, kv.2 < threshold) answer.

(** The counts of [answer] below the threshold are [int64] values, and so
    is their sum: [np.sum] adds them without wrap-around. *)
Definition small_counts_fit (threshold : Z) (answer : gmap string Z) : Prop :=
  (∀ k v, answer !! k = Some v → v < threshold → Py.int64 v)
  ∧ Py.int64 (values_sum (insignificant threshold answer)).

(** ** Calls into the SDK *)

(** What the call [ev], made after the events [before], is answered by the
    world, or by the SDK's check of a register size: [Some msg] when the
    call raises, [None] when it returns or when [ev] is not a call that can
    raise. *)
Definition failed_call (w : World) (before : list event) (ev : event) : option string :=
  match ev with
  | EvSetApi => set_api_outcome w
  | EvExecute _ backend shots timeout =>
      match execute_outcome w (gates_of before) backend shots timeout with
      | inl e => Some e
      | inr _ => None
      end
  | EvGetCounts results name =>
      match get_counts_outcome w results name with
      | inl e => Some e
      | inr _ => None
      end
  | EvPlotHistogram counts => plot_histogram_outcome w counts
  | EvCreateQuantumRegister r | EvCreateClassicalRegister r =>
      if decide (reg_size r = 0%nat) then Some register_size_error else None
  | _ => None
  end.

(** No call of [tr], made after [before], raises. *)
Fixpoint calls_succeed (w : World) (before tr : list event) : Prop :=
  match tr with
  | [] => True
  | ev :: rest => failed_call w before ev = None ∧ calls_succeed w (before ++ [ev]) rest
  end.

(** The events that are not calls which can fail. *)
Definition quiet (ev : event) : bool :=
  match ev with
  | EvSetApi | EvExecute _ _ _ _ | EvGetCounts _ _ | EvPlotHistogram _ => false
  | EvCreateQuantumRegister r | EvCreateClassicalRegister r =>
      negb (Nat.eqb (reg_size r) 0)
  | _ => true
  end.

(** A run with result [res] and trace [tr] surfaces the failures of its
    calls and nothing else: when it ends in an error, the last event is a
    call that the world fails, the error is that failure, and no earlier
    call failed; when it completes, no call failed. *)
Definition surfaces_failures (w : World) (res : error + unit) (tr : list event) : Prop :=
  match res with
  | inl e => ∃ tr' ev msg,
      tr = tr' ++ [ev] ∧ calls_succeed w [] tr'
      ∧ failed_call w tr' ev = Some msg ∧ e = SdkError msg
  | inr _ => calls_succeed w [] tr
  end.

(** ** The steps of the notebook *)

Inductive step := Setup | Selection | Construction | Backend.

(** The step an event belongs to. *)
Definition step_of (ev : event) : step :=
  match ev with
  | EvSetApi => Setup
  | EvRandint _ _ | EvPrint _ _ => Selection
  | EvCreateQuantumRegister _ | EvCreateClassicalRegister _
  | EvCreateCircuit _ _ _ | EvGate _ => Construction
  | EvExecute _ _ _ _ | EvGetCounts _ _ | EvPlotHistogram _ | EvPrintDict _ => Backend
  end.

(** ** Further notions *)

(** A gate refers only to bits the registers of cell 9 have: qubits of [qr]
    with an index below [n + 1], classical bits of [cr] with an index below
    [n]; the two qubits of a CNOT differ. *)
Definition qubit_ok (n : nat) (q : bit) : Prop :=
  q.1 = qr_of n ∧ (q.2 < reg_size (qr_of n))%nat.

Definition clbit_ok (n : nat) (c : bit) : Prop :=
  c.1 = cr_of n ∧ (c.2 < reg_size (cr_of n))%nat.

Definition gate_ok (n : nat) (g : gate) : Prop :=
  match g with
  | gate_h q | gate_x q | gate_iden q => qubit_ok n q
  | gate_cx ctl tgt => qubit_ok n ctl ∧ qubit_ok n tgt ∧ ctl ≠ tgt
  | gate_barrier => True
  | gate_measure q c => qubit_ok n q ∧ clbit_ok n c
  end.

(** The positions below [n] at which [a] has a set bit. *)
Definition set_bits (n : nat) (a : Z) : list nat :=
  filter (λ i, Z.testbit a (Z.of_nat i) = true) (range n).

(** The [execute] calls of a trace, in order. *)
Definition executes_of (tr : list event) : list event :=
  omap (λ ev, match ev with EvExecute _ _ _ _ => Some ev | _ => None end) tr.

(** [int(0.03 * shots)] is the integer part of three hundredths of [shots]. *)
Definition threshold_exact (shots : Z) : bool :=
  match threshold_of shots with
  | Some t => t =? 3 * shots / 100
  | None => false
  end.

(** Counts that fit [int64] with a sum that does not: [-2^63] and [-1]. *)
Definition wrapping_counts : gmap string Z :=
  {[ "0" := -9223372036854775808; "1" := -1 ]}.

(** * Properties *)

(** ** Runs that only append events *)

Section Emits.

Lemma emits_ret {A} (r : A) : emits (mret r) r [].
Proof. intros [tr d]. cbn. by rewrite app_nil_r. Qed.

Lemma emits_bind {A B} (p : M A) (f : A → M B) r r' evs1 evs2 :
  emits p r evs1 → emits (f r) r' evs2 → emits (p ≫= f) r' (evs1 ++ evs2).
Proof.
  intros Hp Hf s. unfold mbind, M_bind. rewrite Hp, Hf. cbn.
  by rewrite app_assoc.
Qed.

Lemma emits_emit ev : emits (emit ev) () [ev].
Proof. by intros s. Qed.

Lemma emits_for_each {A} (l : list A) (body : A → M unit) (f : A → list event) :
  (∀ x, emits (body x) () (f x)) →
  emits (for_each l body) () (concat (f <$> l)).
Proof.
  intros Hbody. induction l as [|x l IH]; cbn.
  - apply emits_ret.
  - apply (emits_bind _ _ () ()); [apply Hbody | apply IH].
Qed.

Lemma emits_trace {A} (p : M A) r evs s :
  emits p r evs → trace (p s).2 = trace s ++ evs.
Proof. intros Hp. by rewrite Hp. Qed.

End Emits.

Lemma gates_of_app tr1 tr2 : gates_of (tr1 ++ tr2) = gates_of tr1 ++ gates_of tr2.
Proof. apply omap_app. Qed.

Lemma gates_of_gates (gs : list gate) : gates_of (EvGate <$> gs) = gs.
Proof. induction gs as [|g gs IH]; cbn; [done | by f_equal]. Qed.

(** ** Bits *)

Lemma truthy_land_shiftl a (i : nat) :
  Py.truthy (Z.land a (Z.shiftl 1 (Z.of_nat i))) = Z.testbit a (Z.of_nat i).
Proof.
  unfold Py.truthy. rewrite Z.shiftl_1_l.
  assert (Z.land a (2 ^ Z.of_nat i) =
          if Z.testbit a (Z.of_nat i) then 2 ^ Z.of_nat i else 0) as ->.
  { apply Z.bits_inj'. intros m Hm.
    rewrite Z.land_spec, Z.pow2_bits_eqb by lia.
    destruct (Z.eqb_spec (Z.of_nat i) m) as [<-|Hne].
    - destruct (Z.testbit a (Z.of_nat i)); cbn.
      + by rewrite Z.pow2_bits_true by lia.
      + by rewrite Z.bits_0.
    - rewrite andb_false_r.
      destruct (Z.testbit a (Z.of_nat i)).
      + rewrite Z.pow2_bits_false by lia. done.
      + by rewrite Z.bits_0. }
  destruct (Z.testbit a (Z.of_nat i)); cbn; [|done].
  assert (0 < 2 ^ Z.of_nat i) by (apply Z.pow_pos_nonneg; lia).
  destruct (Z.eqb_spec (2 ^ Z.of_nat i) 0); [lia | done].
Qed.

Lemma testbit_flip s (q m : nat) :
  Z.testbit (flip s q) (Z.of_nat m) =
    xorb (Z.testbit s (Z.of_nat m)) (bool_decide (q = m)).
Proof.
  unfold flip. rewrite Z.lxor_spec, Z.shiftl_1_l, Z.pow2_bits_eqb by lia.
  f_equal. case_bool_decide; destruct (Z.eqb_spec (Z.of_nat q) (Z.of_nat m)); lia || done.
Qed.

Lemma flip_flip s q : flip (flip s q) q = s.
Proof. unfold flip. by rewrite Z.lxor_assoc, Z.lxor_nilpotent, Z.lxor_0_r. Qed.

Lemma testbit_small x (k : nat) : 0 ≤ x < 2 ^ Z.of_nat k → Z.testbit x (Z.of_nat k) = false.
Proof.
  intros Hx. destruct (decide (x = 0)) as [->|]; [apply Z.bits_0|].
  apply Z.bits_above_log2; [lia|]. apply Z.log2_lt_pow2; lia.
Qed.

Lemma testbit_add_pow2_low x (k i : nat) :
  (i < k)%nat → Z.testbit (2 ^ Z.of_nat k + x) (Z.of_nat i) = Z.testbit x (Z.of_nat i).
Proof.
  intros Hi.
  rewrite <-(Z.mod_pow2_bits_low (2 ^ Z.of_nat k + x) (Z.of_nat k)) by lia.
  rewrite <-(Z.mod_pow2_bits_low x (Z.of_nat k) (Z.of_nat i)) by lia.
  f_equal. rewrite <-(Z.mul_1_l (2 ^ Z.of_nat k)) at 1.
  rewrite Z.add_comm. apply Z_mod_plus_full.
Qed.

Lemma testbit_add_pow2_high x (k : nat) :
  0 ≤ x < 2 ^ Z.of_nat k → Z.testbit (2 ^ Z.of_nat k + x) (Z.of_nat k) = true.
Proof.
  intros Hx. rewrite Z.testbit_true by lia.
  rewrite <-(Z.mul_1_l (2 ^ Z.of_nat k)) at 1.
  rewrite Z.add_comm, Z_div_plus_full by lia.
  by rewrite Z.div_small by lia.
Qed.

Lemma set_bit_below a (n : nat) :
  1 ≤ a < 2 ^ Z.of_nat n → ∃ i : nat, (i < n)%nat ∧ Z.testbit a (Z.of_nat i) = true.
Proof.
  intros Ha. exists (Z.to_nat (Z.log2 a)).
  assert (0 ≤ Z.log2 a) by apply Z.log2_nonneg.
  assert (Z.log2 a < Z.of_nat n) by (apply Z.log2_lt_pow2; lia).
  split; [lia|]. rewrite Z2Nat.id by done. apply Z.bit_log2. lia.
Qed.

(** ** The gates of the oracle *)

Lemma oracle_constant_emits qr n oracleValue a :
  emits (oracle qr n 0 oracleValue a) ()
    [EvGate (if decide (oracleValue = 1) then gate_x (qr, n) else gate_iden (qr, n))].
Proof.
  unfold oracle. rewrite decide_True by done.
  destruct (decide (oracleValue = 1)); apply emits_emit.
Qed.

Lemma oracle_balanced_emits qr n oracleType oracleValue a :
  oracleType ≠ 0 →
  emits (oracle qr n oracleType oracleValue (Some a)) () (EvGate <$> cx_gates qr n a n).
Proof.
  intros HoT. unfold oracle, cx_gates. rewrite decide_False by done.
  set (f := λ i : nat,
    if Z.testbit a (Z.of_nat i) then [EvGate (gate_cx (qr, i) (qr, n))] else []).
  replace (EvGate <$> concat _) with (concat (f <$> range n)).
  - apply emits_for_each. intros i. rewrite truthy_land_shiftl. unfold f.
    destruct (Z.testbit a (Z.of_nat i)); [apply emits_emit | apply emits_ret].
  - induction (range n) as [|i l IH]; cbn; [done|].
    rewrite fmap_app, <-IH. f_equal. unfold f.
    by destruct (Z.testbit a (Z.of_nat i)).
Qed.

Lemma oracle_gates_constant qr n oracleValue a :
  oracle_gates qr n 0 oracleValue a =
    [if decide (oracleValue = 1) then gate_x (qr, n) else gate_iden (qr, n)].
Proof.
  unfold oracle_gates.
  by rewrite (emits_trace _ _ _ _ (oracle_constant_emits qr n oracleValue a)).
Qed.

Lemma oracle_gates_balanced qr n oracleType oracleValue a :
  oracleType ≠ 0 →
  oracle_gates qr n oracleType oracleValue (Some a) = cx_gates qr n a n.
Proof.
  intros HoT. unfold oracle_gates.
  rewrite (emits_trace _ _ _ _ (oracle_balanced_emits qr n _ oracleValue a HoT)).
  cbn. apply gates_of_gates.
Qed.

Lemma cx_gates_S qr tgt a k :
  cx_gates qr tgt a (S k) =
    cx_gates qr tgt a k
    ++ (if Z.testbit a (Z.of_nat k) then [gate_cx (qr, k) (qr, tgt)] else []).
Proof.
  unfold cx_gates, range. rewrite seq_S, fmap_app, concat_app. cbn.
  by rewrite app_nil_r.
Qed.

(** ** The classical action of the oracle's gates *)

Lemma run_classical_app gs1 gs2 s :
  run_classical (gs1 ++ gs2) s = run_classical gs1 s ≫= run_classical gs2.
Proof.
  revert s. induction gs1 as [|g gs1 IH]; intros s; cbn; [done|].
  destruct (apply_classical g s); cbn; [apply IH | done].
Qed.

Lemma parity_bits_S k z :
  parity_bits (S k) z = xorb (parity_bits k z) (Z.testbit z (Z.of_nat k)).
Proof.
  unfold parity_bits. rewrite seq_S, fmap_app, foldr_app. cbn.
  generalize (Z.testbit z (Z.of_nat k)) as b.
  induction (seq 0 k) as [|i l IH]; intros b; cbn.
  - by destruct b.
  - rewrite IH. by rewrite xorb_assoc.
Qed.

Lemma parity_bits_ext k z z' :
  (∀ i : nat, (i < k)%nat → Z.testbit z (Z.of_nat i) = Z.testbit z' (Z.of_nat i)) →
  parity_bits k z = parity_bits k z'.
Proof.
  induction k as [|k IH]; intros Hbits; [done|].
  rewrite !parity_bits_S, IH, Hbits by (intros; apply Hbits || idtac; lia). done.
Qed.

(** After [k] rounds the target has been flipped once for every set bit of
    [a AND s] below [k]; the controls are untouched. *)
Lemma run_cx_gates qr (tgt : nat) a (k : nat) s :
  (k ≤ tgt)%nat →
  run_classical (cx_gates qr tgt a k) s =
    Some (if parity_bits k (Z.land a s) then flip s tgt else s).
Proof.
  intros Hk. induction k as [|k IH]; [done|].
  rewrite cx_gates_S, run_classical_app, IH, parity_bits_S, Z.land_spec by lia.
  assert (Z.testbit (flip s tgt) (Z.of_nat k) = Z.testbit s (Z.of_nat k)) as Hctl.
  { rewrite testbit_flip, bool_decide_eq_false_2 by lia. apply xorb_false_r. }
  destruct (Z.testbit a (Z.of_nat k)); cbn.
  - destruct (parity_bits k (Z.land a s)); cbn; rewrite ?Hctl;
      destruct (Z.testbit s (Z.of_nat k)); cbn; by rewrite ?flip_flip.
  - by rewrite xorb_false_r.
Qed.

Lemma oracle_function_balanced qr (n : nat) oracleType oracleValue a x :
  oracleType ≠ 0 → 0 ≤ x < 2 ^ Z.of_nat n →
  oracle_function n (oracle_gates qr n oracleType oracleValue (Some a)) x =
    Some (parity n (Z.land a x)).
Proof.
  intros HoT Hx. unfold oracle_function, parity.
  rewrite oracle_gates_balanced, run_cx_gates by done. cbn. do 2 f_equal.
  destruct (parity_bits n (Z.land a x)).
  - rewrite testbit_flip, bool_decide_eq_true_2, testbit_small by done. done.
  - by apply testbit_small.
Qed.

(** ** Counting the queries *)

Lemma count_outputs_app f v xs ys :
  count_outputs f v (xs ++ ys) = (count_outputs f v xs + count_outputs f v ys)%nat.
Proof. unfold count_outputs. by rewrite list.filter_app, length_app. Qed.

Lemma count_outputs_ext f g v xs :
  (∀ x, x ∈ xs → f x = g x) → count_outputs f v xs = count_outputs g v xs.
Proof.
  unfold count_outputs. induction xs as [|x xs IH]; intros Hfg; [done|].
  rewrite !filter_cons, <-(Hfg x) by left.
  destruct (decide (f x = Some v)); cbn; rewrite IH; try done;
    intros y Hy; apply Hfg; by right.
Qed.

Lemma count_outputs_fmap f v (h : Z → Z) xs :
  count_outputs f v (h <$> xs) = count_outputs (f ∘ h) v xs.
Proof.
  unfold count_outputs. induction xs as [|x xs IH]; [done|].
  rewrite fmap_cons, !filter_cons. cbn.
  destruct (decide (f (h x) = Some v)); cbn; by rewrite IH.
Qed.

Lemma count_outputs_bool (g : Z → bool) xs :
  (count_outputs (λ x, Some (Z.b2z (g x))) 0 xs
   + count_outputs (λ x, Some (Z.b2z (g x))) 1 xs)%nat = length xs.
Proof.
  unfold count_outputs. induction xs as [|x xs IH]; [done|].
  rewrite !filter_cons. destruct (g x); cbn;
    repeat case_decide; try done; cbn; lia.
Qed.

Lemma inputs_S k : inputs (S k) = inputs k ++ (Z.add (2 ^ Z.of_nat k) <$> inputs k).
Proof.
  unfold inputs. assert (0 < 2 ^ Z.of_nat k) by (apply Z.pow_pos_nonneg; lia).
  rewrite Nat2Z.inj_succ, Z.pow_succ_r by lia.
  replace (2 * 2 ^ Z.of_nat k) with (2 ^ Z.of_nat k + 2 ^ Z.of_nat k) by lia.
  rewrite seqZ_app, fmap_add_seqZ by lia. do 2 f_equal. lia.
Qed.

Lemma elem_of_inputs k x : x ∈ inputs k ↔ 0 ≤ x < 2 ^ Z.of_nat k.
Proof. unfold inputs. rewrite elem_of_seqZ. lia. Qed.

Lemma length_inputs k : Z.of_nat (length (inputs k)) = 2 ^ Z.of_nat k.
Proof.
  unfold inputs. rewrite length_seqZ, Z2Nat.id; [done|].
  apply Z.pow_nonneg. lia.
Qed.

(** The inner product with a mask that has a set bit below [k] vanishes on
    half of the [2^k] queries. *)
Lemma count_parity_zero a (k : nat) :
  (∃ i : nat, (i < k)%nat ∧ Z.testbit a (Z.of_nat i) = true) →
  2 * Z.of_nat (count_outputs (λ x, Some (parity k (Z.land a x))) 0 (inputs k))
  = 2 ^ Z.of_nat k.
Proof.
  induction k as [|k IH]; intros (i & Hi & Hbit); [lia|].
  pose proof (length_inputs k) as Hlen.
  pose proof (count_outputs_bool (λ x, parity_bits k (Z.land a x)) (inputs k)) as Hsum.
  rewrite inputs_S, count_outputs_app, count_outputs_fmap.
  rewrite Nat2Z.inj_succ, Z.pow_succ_r by lia.
  rewrite (count_outputs_ext _ (λ x, Some (parity k (Z.land a x))) 0 (inputs k)).
  2:{ intros x Hx%elem_of_inputs. unfold parity.
      rewrite parity_bits_S, Z.land_spec, (testbit_small x k), andb_false_r by done.
      by rewrite xorb_false_r. }
  destruct (Z.testbit a (Z.of_nat k)) eqn:Hak.
  - rewrite (count_outputs_ext (_ ∘ _)
      (λ x, Some (Z.b2z (negb (parity_bits k (Z.land a x))))) 0 (inputs k)).
    2:{ intros x Hx%elem_of_inputs. cbn. unfold parity.
        rewrite parity_bits_S, Z.land_spec, Hak, testbit_add_pow2_high by done.
        rewrite (parity_bits_ext k _ (Z.land a x)).
        - by rewrite xorb_true_r.
        - intros j Hj. by rewrite !Z.land_spec, testbit_add_pow2_low. }
    assert (count_outputs (λ x, Some (Z.b2z (negb (parity_bits k (Z.land a x))))) 0 (inputs k)
            = count_outputs (λ x, Some (Z.b2z (parity_bits k (Z.land a x)))) 1 (inputs k)) as ->.
    { unfold count_outputs. f_equal. apply list_filter_iff. intros x.
      destruct (parity_bits k (Z.land a x)); cbn; split; congruence. }
    unfold parity in *. lia.
  - rewrite (count_outputs_ext (_ ∘ _) (λ x, Some (parity k (Z.land a x))) 0 (inputs k)).
    2:{ intros x Hx%elem_of_inputs. cbn. unfold parity.
        rewrite parity_bits_S, Z.land_spec, Hak, andb_false_l, xorb_false_r.
        do 2 f_equal. apply parity_bits_ext.
        intros j Hj. by rewrite !Z.land_spec, testbit_add_pow2_low. }
    assert ((i < k)%nat) by (destruct (decide (i = k)) as [->|]; [congruence | lia]).
    specialize (IH (ex_intro _ i (conj ltac:(done) Hbit))). lia.
Qed.

Lemma count_parity_one a (k : nat) :
  (∃ i : nat, (i < k)%nat ∧ Z.testbit a (Z.of_nat i) = true) →
  2 * Z.of_nat (count_outputs (λ x, Some (parity k (Z.land a x))) 1 (inputs k))
  = 2 ^ Z.of_nat k.
Proof.
  intros Hbit%count_parity_zero.
  pose proof (length_inputs k).
  pose proof (count_outputs_bool (λ x, parity_bits k (Z.land a x)) (inputs k)).
  unfold parity in *. lia.
Qed.

(** ** The two kinds of oracle *)

(** C1: for a hidden parameter [1 <= a < 2^n], the gates of the balanced
    oracle ([oracleType = 1]) compute the parity of [a AND x] in the answer
    qubit, and that function is 0 on exactly half of the [2^n] queries (and
    1 on the other half). *)
Theorem balanced_oracle_is_balanced (n : nat) (oracleValue a : Z) :
  1 ≤ a < 2 ^ Z.of_nat n →
  let f := oracle_function n (oracle_gates (qr_of n) n 1 oracleValue (Some a)) in
  (∀ x, x ∈ inputs n → f x = Some (parity n (Z.land a x)))
  ∧ 2 * Z.of_nat (count_outputs f 0 (inputs n)) = 2 ^ Z.of_nat n
  ∧ 2 * Z.of_nat (count_outputs f 1 (inputs n)) = 2 ^ Z.of_nat n.
Proof.
  intros Ha f.
  assert (∀ x, x ∈ inputs n → f x = Some (parity n (Z.land a x))) as Hf.
  { intros x Hx%elem_of_inputs. by apply oracle_function_balanced. }
  pose proof (set_bit_below a n Ha) as Hbit.
  split_and!; [done| |].
  - rewrite (count_outputs_ext f _ 0 _ Hf). by apply count_parity_zero.
  - rewrite (count_outputs_ext f _ 1 _ Hf). by apply count_parity_one.
Qed.

Lemma balanced_oracle_is_balanced_witness :
  1 ≤ 1234 < 2 ^ Z.of_nat n
  ∧ 2 * Z.of_nat (count_outputs
        (oracle_function n (oracle_gates (qr_of n) n 1 0 (Some 1234))) 0 (inputs n))
    = 2 ^ Z.of_nat n.
Proof.
  assert (1 ≤ 1234 < 2 ^ Z.of_nat n) as Ha by (by vm_compute).
  split; [exact Ha|].
  exact (proj1 (proj2 (balanced_oracle_is_balanced n 0 1234 Ha))).
Defined.

(** C2: with [oracleType = 0] the oracle is one gate on the answer qubit, an
    X gate when [oracleValue = 1] and an identity gate otherwise, and on
    every [n]-bit query it leaves [oracleValue] in the answer qubit. *)
Theorem constant_oracle_is_constant (n : nat) (oracleValue : Z) (a : option Z) :
  0 ≤ oracleValue < 2 →
  oracle_gates (qr_of n) n 0 oracleValue a
    = [if decide (oracleValue = 1) then gate_x (qr_of n, n) else gate_iden (qr_of n, n)]
  ∧ ∀ x, x ∈ inputs n →
      oracle_function n (oracle_gates (qr_of n) n 0 oracleValue a) x = Some oracleValue.
Proof.
  intros HoV. rewrite oracle_gates_constant. split; [done|].
  intros x Hx%elem_of_inputs. unfold oracle_function.
  destruct (decide (oracleValue = 1)) as [->|Hne]; cbn.
  - by rewrite testbit_flip, bool_decide_eq_true_2, testbit_small.
  - rewrite testbit_small by done. cbn. f_equal. lia.
Qed.

Lemma constant_oracle_is_constant_witness :
  0 ≤ 1 < 2
  ∧ oracle_function n (oracle_gates (qr_of n) n 0 1 None) 77 = Some 1.
Proof.
  split; [lia|].
  apply (constant_oracle_is_constant n 1 None); [lia|].
  apply elem_of_inputs. by vm_compute.
Defined.

(** ** The steps of cell 9 *)

Lemma n_positive : (1 ≤ n)%nat.
Proof. unfold n. lia. Qed.

Lemma n_bounds : (1 ≤ n ≤ 63)%nat.
Proof. unfold n. lia. Qed.

Lemma pow2_le_int64 (n : nat) : (n ≤ 63)%nat → 2 ^ Z.of_nat n ≤ 2 ^ 63.
Proof. intros Hn. apply Z.pow_le_mono_r; lia. Qed.

Lemma pow2_gt_1 (n : nat) : (1 ≤ n)%nat → 1 < 2 ^ Z.of_nat n.
Proof.
  intros Hn. change 1 with (2 ^ 0) at 1. apply Z.pow_lt_mono_r; lia.
Qed.

Lemma draw_range w d low high : low < high → low ≤ draw w d low high < high.
Proof.
  intros Hlt. unfold draw.
  pose proof (Z.mod_pos_bound (entropy w d) (high - low)). lia.
Qed.

Lemma randint_run w low high s :
  - 2 ^ 63 ≤ low → high ≤ 2 ^ 63 → low < high →
  randint w low high s =
    (inr (draw w (draws s) low high),
     State (trace s ++ [EvRandint low high]) (S (draws s))).
Proof.
  intros Hlow Hhigh Hlt. unfold randint.
  rewrite decide_False, decide_False, decide_True by lia. done.
Qed.

(** Every integer of the interval can be drawn. *)
Lemma randint_onto low high v s :
  - 2 ^ 63 ≤ low → high ≤ 2 ^ 63 →
  low ≤ v < high →
  ∃ w, (randint w low high s).1 = inr v.
Proof.
  intros Hlow Hhigh Hv.
  exists (Build_World [] (λ _, v - low) None (λ _ _ _ _, inr 0%nat) (λ _ _, inr ∅) (λ _, None)).
  rewrite randint_run by lia. cbn. unfold draw. cbn.
  rewrite Z.mod_small by lia. f_equal. lia.
Qed.

Lemma select_parameters_run w (n : nat) s :
  (1 ≤ n ≤ 63)%nat →
  ∃ d, select_parameters w n s =
    (inr (selected w n (draws s)),
     State (trace s ++ selection_trace n (selected w n (draws s))) d).
Proof.
  intros [Hn%pow2_gt_1 Hn'%pow2_le_int64]. destruct s as [tr d].
  unfold select_parameters, selected, selection_trace, mbind, M_bind.
  rewrite randint_run by lia. cbn [draws trace].
  rewrite randint_run by lia. cbn [draws trace fst snd].
  destruct (decide (draw w d 0 2 = 0)) as [HoT|HoT].
  - eexists. cbn. by rewrite <-!app_assoc.
  - cbn. rewrite randint_run by lia. eexists. cbn. by rewrite <-!app_assoc.
Qed.

Lemma selected_bound w n d :
  parameters_bound (selected w n d).1.1 (selected w n d).2.
Proof.
  unfold parameters_bound, selected. cbn.
  destruct (decide (draw w d 0 2 = 0)); [by left | by right].
Qed.

Lemma oracle_emits n oracleType oracleValue a :
  parameters_bound oracleType a →
  emits (oracle (qr_of n) n oracleType oracleValue a) ()
    (EvGate <$> oracle_gates (qr_of n) n oracleType oracleValue a).
Proof.
  intros Hb. destruct (decide (oracleType = 0)) as [->|HoT].
  - rewrite oracle_gates_constant. apply oracle_constant_emits.
  - destruct Hb as [?|[a' ->]]; [done|].
    rewrite oracle_gates_balanced by done. by apply oracle_balanced_emits.
Qed.

Lemma for_each_gates (f : nat → gate) (l : list nat) :
  emits (for_each l (λ i, append (f i))) () (EvGate <$> (f <$> l)).
Proof.
  replace (EvGate <$> (f <$> l)) with (concat ((λ i, [EvGate (f i)]) <$> l)).
  - apply emits_for_each. intros i. apply emits_emit.
  - induction l as [|i l IH]; cbn; [done | by rewrite IH].
Qed.

Lemma emits_eq {A} (p : M A) r evs evs' :
  emits p r evs → evs = evs' → emits p r evs'.
Proof. by intros ? <-. Qed.

Lemma create_quantum_register_emits name size :
  size ≠ 0%nat →
  emits (create_quantum_register name size) (Register name size)
    [EvCreateQuantumRegister (Register name size)].
Proof.
  intros Hsize. unfold create_quantum_register. rewrite decide_False by done.
  eapply emits_eq; [eapply emits_bind; [apply emits_emit | apply emits_ret] | done].
Qed.

Lemma create_classical_register_emits name size :
  size ≠ 0%nat →
  emits (create_classical_register name size) (Register name size)
    [EvCreateClassicalRegister (Register name size)].
Proof.
  intros Hsize. unfold create_classical_register. rewrite decide_False by done.
  eapply emits_eq; [eapply emits_bind; [apply emits_emit | apply emits_ret] | done].
Qed.

Lemma build_circuit_emits n oracleType oracleValue a :
  (1 ≤ n)%nat →
  parameters_bound oracleType a →
  emits (build_circuit n oracleType oracleValue a) ()
    (build_events n (oracleType, oracleValue, a)).
Proof.
  intros Hn Hb. unfold build_circuit.
  eapply emits_eq.
  - eapply emits_bind; [apply create_quantum_register_emits; lia|]. cbn beta.
    eapply emits_bind; [apply create_classical_register_emits; lia|]. cbn beta.
    fold (qr_of n) (cr_of n).
    eapply emits_bind; [apply emits_emit|].
    eapply emits_bind; [apply for_each_gates|].
    eapply emits_bind; [apply emits_emit|].
    eapply emits_bind; [apply emits_emit|].
    eapply emits_bind; [apply emits_emit|].
    eapply emits_bind; [by apply oracle_emits|].
    eapply emits_bind; [apply emits_emit|].
    eapply emits_bind; [apply for_each_gates|].
    apply for_each_gates.
  - unfold build_events, circuit_prefix, circuit_suffix. cbn [fst snd].
    rewrite !fmap_app, !fmap_cons, !fmap_app. cbn.
    rewrite <-!app_assoc. done.
Qed.

(** ** The circuit *)

Lemma build_trace_bound n oracleType oracleValue a :
  (1 ≤ n)%nat →
  parameters_bound oracleType a →
  build_trace n oracleType oracleValue a = build_events n (oracleType, oracleValue, a).
Proof.
  intros Hn Hb. unfold build_trace.
  by rewrite (emits_trace _ _ _ _ (build_circuit_emits n _ oracleValue a Hn Hb)).
Qed.

(** Without a query qubit the classical register is refused and no gate is
    appended. *)
Lemma build_trace_0 oracleType oracleValue a :
  build_trace 0 oracleType oracleValue a =
    [EvCreateQuantumRegister (qr_of 0); EvCreateClassicalRegister (cr_of 0)].
Proof. reflexivity. Qed.

Lemma gates_of_build_events n p :
  gates_of (build_events n p) =
    circuit_prefix n ++ oracle_gates (qr_of n) n p.1.1 p.1.2 p.2 ++ circuit_suffix n.
Proof. unfold build_events. rewrite gates_of_app. cbn. apply gates_of_gates. Qed.

Lemma measurements_app gs1 gs2 :
  measurements (gs1 ++ gs2) = measurements gs1 ++ measurements gs2.
Proof. apply omap_app. Qed.

Lemma measurements_none (f : nat → gate) (l : list nat) :
  (∀ i, match f i with gate_measure _ _ => False | _ => True end) →
  measurements (f <$> l) = [].
Proof.
  intros Hf. induction l as [|i l IH]; cbn; [done|].
  specialize (Hf i). by destruct (f i).
Qed.

Lemma measurements_cx_gates qr tgt a k : measurements (cx_gates qr tgt a k) = [].
Proof.
  induction k as [|k IH]; [done|].
  rewrite cx_gates_S, measurements_app, IH.
  by destruct (Z.testbit a (Z.of_nat k)).
Qed.

Lemma measurements_oracle_gates qr n oracleType oracleValue a :
  parameters_bound oracleType a →
  measurements (oracle_gates qr n oracleType oracleValue a) = [].
Proof.
  intros Hb. destruct (decide (oracleType = 0)) as [->|HoT].
  - rewrite oracle_gates_constant. by destruct (decide (oracleValue = 1)).
  - destruct Hb as [?|[a' ->]]; [done|].
    rewrite oracle_gates_balanced by done. apply measurements_cx_gates.
Qed.

Lemma djCircuit_bound n oracleType oracleValue a :
  (1 ≤ n)%nat →
  parameters_bound oracleType a →
  djCircuit n oracleType oracleValue a =
    circuit_prefix n
    ++ oracle_gates (qr_of n) n oracleType oracleValue a
    ++ circuit_suffix n.
Proof.
  intros Hn Hb. unfold djCircuit. rewrite build_trace_bound by done.
  apply gates_of_build_events.
Qed.

(** C3, as amended: with at least one query qubit (the registers are then
    accepted), the gates appended before the oracle and after it are the
    same for every choice of the oracle parameters; the circuit is this
    fixed prefix, the gates of the oracle (which depend on the parameters),
    and this fixed suffix. *)
Theorem circuit_fixed_outside_oracle (n : nat) (oracleType oracleValue : Z) (a : option Z) :
  (1 ≤ n)%nat →
  parameters_bound oracleType a →
  djCircuit n oracleType oracleValue a =
    circuit_prefix n
    ++ oracle_gates (qr_of n) n oracleType oracleValue a
    ++ circuit_suffix n.
Proof. apply djCircuit_bound. Qed.

Lemma circuit_fixed_outside_oracle_witness :
  (1 ≤ n)%nat
  ∧ parameters_bound 1 (Some 5)
  ∧ djCircuit n 1 0 (Some 5) =
      circuit_prefix n
      ++ [gate_cx (qr_of n, 0%nat) (qr_of n, n); gate_cx (qr_of n, 2%nat) (qr_of n, n)]
      ++ circuit_suffix n.
Proof.
  split; [apply n_positive|]. split; [right; by eexists|].
  apply (circuit_fixed_outside_oracle n 1 0 (Some 5) n_positive). right. by eexists.
Defined.

(** C3, as stated, fails: the constant oracles of value 0 and of value 1
    give different gate sequences, and so do two masks of the balanced
    oracle. *)
Lemma circuit_depends_on_parameters :
  djCircuit n 0 0 None ≠ djCircuit n 0 1 None
  ∧ djCircuit n 1 0 (Some 1) ≠ djCircuit n 1 0 (Some 3).
Proof. split; by vm_compute. Qed.

Lemma classical_registers_app tr1 tr2 :
  classical_registers (tr1 ++ tr2) = classical_registers tr1 ++ classical_registers tr2.
Proof. apply omap_app. Qed.

Lemma classical_registers_gates gs : classical_registers (EvGate <$> gs) = [].
Proof. induction gs as [|g gs IH]; cbn; done. Qed.

(** C10: for all oracle parameters, the classical register has size [n],
    the circuit has exactly [n] measurements, the [i]-th one maps [qr[i]] to
    [cr[i]], and the answer qubit [qr[n]] is never measured. *)
Theorem measures_exactly_query_qubits (n : nat) (oracleType oracleValue : Z) (a : option Z) :
  parameters_bound oracleType a →
  let ms := measurements (djCircuit n oracleType oracleValue a) in
  classical_registers (build_trace n oracleType oracleValue a) = [cr_of n]
  ∧ reg_size (cr_of n) = n
  ∧ length ms = n
  ∧ (∀ i : nat, (i < n)%nat → ms !! i = Some ((qr_of n, i), (cr_of n, i)))
  ∧ (∀ q c, (q, c) ∈ ms → q ≠ (qr_of n, n)).
Proof.
  intros Hb ms.
  destruct (decide (n = 0%nat)) as [->|Hn].
  { subst ms. unfold djCircuit. rewrite build_trace_0. cbn.
    split_and!; [done | done | done | intros i Hi; lia |].
    by intros q c ?%elem_of_nil. }
  assert (ms = (λ i, ((qr_of n, i), (cr_of n, i))) <$> range n) as ->.
  { unfold ms. rewrite djCircuit_bound by (done || lia).
    rewrite !measurements_app, measurements_oracle_gates by done.
    unfold circuit_prefix, circuit_suffix.
    rewrite measurements_app, measurements_none by done. cbn.
    rewrite measurements_app, measurements_none by done. cbn.
    unfold measurements. induction (range n) as [|i l IH]; cbn; [done | by f_equal]. }
  split_and!.
  - rewrite build_trace_bound by (done || lia). unfold build_events.
    by rewrite classical_registers_app, classical_registers_gates.
  - done.
  - unfold range. by rewrite length_fmap, length_seq.
  - intros i Hi. unfold range. rewrite list_lookup_fmap, lookup_seq_lt by done. done.
  - intros q c (i & [= -> ->] & Hi)%list_elem_of_fmap [= Heq].
    unfold range in Hi. apply elem_of_seq in Hi. lia.
Qed.

Lemma measures_exactly_query_qubits_witness :
  parameters_bound 0 None
  ∧ length (measurements (djCircuit n 0 1 None)) = n.
Proof.
  split; [by left|].
  apply (measures_exactly_query_qubits n 0 1 None). by left.
Defined.

(** C5: for a register of 1 to 63 query qubits (15 in the notebook; numpy
    draws [a] as an int64 below [2^n]) the parameter-selection step returns,
    and the parameters it returns are in range: [oracleType] and [oracleValue] are 0 or 1, the mask [a] is
    bound exactly when [oracleType = 1], and then [1 <= a < 2^n]. *)
Theorem parameters_in_range (w : World) (n : nat) (s : state) :
  (1 ≤ n ≤ 63)%nat →
  ∃ oracleType oracleValue a s',
    select_parameters w n s = (inr (oracleType, oracleValue, a), s')
    ∧ (oracleType = 0 ∨ oracleType = 1)
    ∧ (oracleValue = 0 ∨ oracleValue = 1)
    ∧ (oracleType = 0 → a = None)
    ∧ (oracleType = 1 → ∃ v, a = Some v ∧ 1 ≤ v < 2 ^ Z.of_nat n).
Proof.
  intros Hn. destruct (select_parameters_run w n s Hn) as [d ->].
  pose proof (pow2_gt_1 n (proj1 Hn)).
  pose proof (draw_range w (draws s) 0 2 ltac:(lia)).
  pose proof (draw_range w (S (draws s)) 0 2 ltac:(lia)).
  pose proof (draw_range w (S (S (draws s))) 1 (2 ^ Z.of_nat n) ltac:(lia)).
  unfold selected. do 4 eexists. split; [done|].
  split_and!; try lia.
  - intros ->. by rewrite decide_True.
  - intros HoT. rewrite decide_False by lia. by eexists.
Qed.

Lemma parameters_in_range_witness :
  (1 ≤ n ≤ 63)%nat
  ∧ ∃ oracleType oracleValue a s',
    select_parameters sample_world n initial = (inr (oracleType, oracleValue, a), s')
    ∧ (oracleType = 0 ∨ oracleType = 1)
    ∧ (oracleValue = 0 ∨ oracleValue = 1)
    ∧ (oracleType = 0 → a = None)
    ∧ (oracleType = 1 → ∃ v, a = Some v ∧ 1 ≤ v < 2 ^ Z.of_nat n).
Proof.
  split; [apply n_bounds|].
  apply (parameters_in_range sample_world n initial), n_bounds.
Defined.

(** ** The filtering of the counts *)

Lemma total_perm l l' : l ≡ₚ l' → Py.total l = Py.total l'.
Proof. unfold Py.total. induction 1; cbn in *; lia. Qed.

Lemma total_app l l' : Py.total (l ++ l') = Py.total l + Py.total l'.
Proof. unfold Py.total. induction l as [|x l IH]; cbn in *; lia. Qed.

Lemma wrap64_int64 z : Py.int64 z → Py.wrap64 z = z.
Proof.
  unfold Py.int64, Py.wrap64. intros Hz.
  rewrite Z.mod_small; lia.
Qed.

Lemma wrap64_add_l a b : Py.wrap64 (Py.wrap64 a + b) = Py.wrap64 (a + b).
Proof.
  unfold Py.wrap64. f_equal.
  replace ((a + 2 ^ 63) `mod` 2 ^ 64 - 2 ^ 63 + b + 2 ^ 63)
    with ((a + 2 ^ 63) `mod` 2 ^ 64 + b) by lia.
  rewrite Z.add_mod_idemp_l by lia. f_equal. lia.
Qed.

(** Adding with wrap-around at every step gives the sum, wrapped once. *)
Lemma np_sum_total l : Py.np_sum l = Py.wrap64 (Py.total l).
Proof.
  unfold Py.np_sum.
  assert (∀ acc, foldl (λ acc x, Py.wrap64 (acc + x)) (Py.wrap64 acc) l
                 = Py.wrap64 (acc + Py.total l)) as Hfold.
  { induction l as [|x l IH]; intros acc; cbn.
    - by rewrite Z.add_0_r.
    - rewrite wrap64_add_l, IH. f_equal. unfold Py.total. cbn. lia. }
  apply (Hfold 0).
Qed.

Lemma sample_counts_lookup k v :
  sample_counts !! k = Some v → v = 950 ∨ v = 30 ∨ v = 20.
Proof.
  unfold sample_counts. rewrite !lookup_insert_Some, lookup_singleton_Some.
  intros [[_ <-]|[_ [[_ <-]|[_ [_ <-]]]]]; auto.
Qed.

Lemma foldl_insert_lookup (l : list (string * Z)) (acc : gmap string Z) k :
  NoDup l.*1 →
  foldl (λ d kv, <[kv.1 := kv.2]> d) acc l !! k =
    match (list_to_map l : gmap string Z) !! k with
    | Some v => Some v
    | None => acc !! k
    end.
Proof.
  revert acc. induction l as [|[k0 v0] l IH]; intros acc Hnd; [done|].
  cbn [fmap list_fmap fst] in Hnd. apply list.NoDup_cons in Hnd as [Hk0 Hnd]. cbn. rewrite IH by done.
  destruct (decide (k = k0)) as [->|Hne].
  - rewrite (not_elem_of_list_to_map_1 l k0) by done.
    by rewrite !lookup_insert_eq.
  - by rewrite !lookup_insert_ne.
Qed.

Lemma dict_of_list_to_map (l : list (string * Z)) :
  NoDup l.*1 → Py.dict_of l = list_to_map l.
Proof.
  intros Hnd. apply map_eq. intros k. unfold Py.dict_of.
  rewrite foldl_insert_lookup by done.
  destruct (_ !! k); [done | apply lookup_empty].
Qed.

Lemma NoDup_fst_filter_items (P : string * Z → Prop) `{!∀ kv, Decision (P kv)}
    (d : gmap string Z) :
  NoDup (filter P (Py.items d)).*1.
Proof.
  eapply sublist_NoDup; [apply (NoDup_fst_map_to_list d)|].
  apply fmap_sublist, sublist_filter.
Qed.

(** The dictionary comprehension over the items is the filter of the
    dictionary. *)
Lemma dict_of_filter_items (P : string * Z → Prop) `{!∀ kv, Decision (P kv)}
    (d : gmap string Z) :
  Py.dict_of (filter P (Py.items d)) = filter P d.
Proof.
  rewrite dict_of_list_to_map by apply NoDup_fst_filter_items.
  apply map_eq. intros k. apply option_eq. intros v.
  rewrite <-elem_of_list_to_map by apply NoDup_fst_filter_items.
  rewrite list_elem_of_filter, map_lookup_filter_Some.
  unfold Py.items. rewrite elem_of_map_to_list. tauto.
Qed.

(** The sum over the filtered items is the sum of the values of the
    filtered dictionary. *)
Lemma total_filter_items (P : string * Z → Prop) `{!∀ kv, Decision (P kv)}
    (d : gmap string Z) :
  Py.total (filter P (Py.items d)).*2 = values_sum (filter P d).
Proof.
  unfold values_sum. apply total_perm, fmap_Permutation.
  rewrite <-dict_of_filter_items, dict_of_list_to_map by apply NoDup_fst_filter_items.
  symmetry. apply map_to_list_to_map, NoDup_fst_filter_items.
Qed.

Lemma filter_counts_eq answer threshold :
  filter_counts answer threshold =
    <["other_bitstring" := Py.wrap64 (values_sum (insignificant threshold answer))]>
      (significant threshold answer).
Proof.
  unfold filter_counts, significant, insignificant.
  by rewrite dict_of_filter_items, np_sum_total, total_filter_items.
Qed.

(** When the small counts fit, the sum is exact. *)
Lemma filter_counts_fit answer threshold :
  small_counts_fit threshold answer →
  filter_counts answer threshold =
    <["other_bitstring" := values_sum (insignificant threshold answer)]>
      (significant threshold answer).
Proof. intros [_ Hsum]. by rewrite filter_counts_eq, wrap64_int64. Qed.

Lemma small_counts_fit_sample : small_counts_fit 30 sample_counts.
Proof.
  split; [|by vm_compute].
  intros k v Hk _. unfold Py.int64.
  destruct (sample_counts_lookup k v Hk) as [->|[->| ->]]; lia.
Qed.

Lemma values_sum_insert (d : gmap string Z) k v :
  d !! k = None → values_sum (<[k := v]> d) = v + values_sum d.
Proof.
  intros Hk. unfold values_sum.
  rewrite (total_perm _ _ (fmap_Permutation snd _ _ (map_to_list_insert d k v Hk))).
  done.
Qed.

Lemma values_sum_split threshold (answer : gmap string Z) :
  values_sum (significant threshold answer) + values_sum (insignificant threshold answer)
  = values_sum answer.
Proof.
  unfold significant, insignificant.
  rewrite <-!total_filter_items. unfold values_sum, Py.items.
  induction (map_to_list answer) as [|[k v] l IH]; [done|].
  rewrite !filter_cons. cbn [snd].
  destruct (decide (threshold ≤ v)), (decide (v < threshold)); try lia;
    unfold Py.total in *; cbn in *; lia.
Qed.




(** C9, as stated, fails on a dictionary that has the key
    ['other_bitstring'] with a count that reaches the threshold: the entry is
    overwritten by the sum of the small counts. It also fails where that sum
    wraps around: for the counts [-2^63] and [-1] the entry holds
    [2^63 - 1], not their sum. *)
Lemma overwritten_entry_counterexample :
  threshold_of 1000 = Some 30
  ∧ ({["other_bitstring" := 50]} : gmap string Z) !! "other_bitstring" = Some 50
  ∧ 30 ≤ 50
  ∧ filter_counts {["other_bitstring" := 50]} 30 !! "other_bitstring" = Some 0
  ∧ wrapping_counts !! "other_bitstring" = None
  ∧ values_sum (insignificant 30 wrapping_counts) = -9223372036854775809
  ∧ filter_counts wrapping_counts 30 !! "other_bitstring" = Some 9223372036854775807.
Proof. split_and!; by vm_compute. Qed.

(** C9, as amended: when ['other_bitstring'] is not a key of [answer], and
    the counts below the threshold are [int64] values whose sum is one too,
    the filtered dictionary holds exactly the entries of [answer] whose
    count reaches the threshold, with their counts, and the entry
    ['other_bitstring'], whose value is the sum of the counts below the
    threshold. This holds for every threshold, [int(0.03 * shots)] among
    them. *)
Theorem filtered_counts_content (answer : gmap string Z) (threshold : Z) :
  answer !! "other_bitstring" = None →
  small_counts_fit threshold answer →
  ∀ k v, filter_counts answer threshold !! k = Some v ↔
    (answer !! k = Some v ∧ threshold ≤ v)
    ∨ (k = "other_bitstring" ∧ v = values_sum (insignificant threshold answer)).
Proof.
  intros Hfresh Hfit k v. rewrite filter_counts_fit by done. unfold significant.
  destruct (decide (k = "other_bitstring")) as [->|Hne].
  - rewrite lookup_insert_eq, Hfresh. split.
    + intros [= <-]. by right.
    + intros [[[=] _]|[_ ->]]. done.
  - rewrite lookup_insert_ne, map_lookup_filter_Some by done. cbn. tauto.
Qed.

Lemma filtered_counts_content_witness :
  sample_counts !! "other_bitstring" = None
  ∧ small_counts_fit 30 sample_counts
  ∧ threshold_of 1000 = Some 30
  ∧ filter_counts sample_counts 30 !! "000000000000110" = Some 30
  ∧ filter_counts sample_counts 30 !! "other_bitstring" = Some 20.
Proof.
  assert (sample_counts !! "other_bitstring" = None) as Hfresh by (by vm_compute).
  pose proof small_counts_fit_sample as Hfit.
  split; [done|]. split; [done|]. split; [by vm_compute|]. split.
  - apply (filtered_counts_content sample_counts 30 Hfresh Hfit). left. by vm_compute.
  - apply (filtered_counts_content sample_counts 30 Hfresh Hfit). right. by vm_compute.
Defined.

(** A key of the filtered dictionary is a key of [answer] with the same
    count, or it is ['other_bitstring']. *)
Lemma filter_counts_keys answer threshold k v :
  filter_counts answer threshold !! k = Some v →
  k = "other_bitstring" ∨ answer !! k = Some v.
Proof.
  rewrite filter_counts_eq. unfold significant.
  destruct (decide (k = "other_bitstring")) as [->|Hne]; [by left|].
  rewrite lookup_insert_ne, map_lookup_filter_Some by done. intros [? _]. by right.
Qed.

(** ** The runs of the notebook *)

Lemma threshold_1000 : threshold_of 1000 = Some 30.
Proof. by vm_compute. Qed.

Lemma cell5_run w s :
  cell5 w s =
    if Py.tuple_lt (version_info w) [3; 5]
    then (inl (NotebookException "Please use Python version 3.5 or greater."), s)
    else (inr (), s).
Proof. unfold cell5. by destruct (Py.tuple_lt _ _). Qed.

Lemma cell9_set_api_fails w n s e :
  set_api_outcome w = Some e →
  cell9 w n s = (inl (SdkError e), State (trace s ++ [EvSetApi]) (draws s)).
Proof. intros He. unfold cell9, set_api, mbind, M_bind, emit. by rewrite He. Qed.

Lemma cell9_run w (n : nat) s :
  (1 ≤ n ≤ 63)%nat → set_api_outcome w = None →
  ∃ d, cell9 w n s = (inr (), State (trace s ++ cell9_trace w n (draws s)) d).
Proof.
  intros Hn Hapi. unfold cell9, set_api, mbind, M_bind, emit. rewrite Hapi.
  cbn [mret M_ret].
  destruct (select_parameters_run w n (State (trace s ++ [EvSetApi]) (draws s)) Hn)
    as [d ->].
  cbn [trace draws]. pose proof (selected_bound w n (draws s)) as Hb.
  destruct (selected w n (draws s)) as [[oracleType oracleValue] a] eqn:Hsel.
  rewrite (build_circuit_emits n oracleType oracleValue a (proj1 Hn) Hb).
  cbn [trace draws].
  exists d. unfold cell9_trace. rewrite Hsel. do 2 f_equal.
  rewrite <-!app_assoc. done.
Qed.

Ltac run_step :=
  cbn [trace draws mret M_ret]; rewrite <-?app_assoc; cbn [app].

Lemma device_runs_from_spec w s :
  ∃ res evs d,
    cell13 w s = (res, State (trace s ++ evs) d)
    ∧ device_runs_from w (trace s) res evs.
Proof.
  unfold cell13, execute, get_counts, plot_histogram, mbind, M_bind, emit, raise.
  rewrite threshold_1000. run_step.
  destruct (execute_outcome w _ "ibmqx5" _ _) as [e|r] eqn:Hexec.
  { do 3 eexists. split; [done|]. by apply device_execute_fails. }
  run_step.
  destruct (get_counts_outcome w r circuitName) as [e|answer] eqn:Hcounts.
  { do 3 eexists. split; [done|]. by eapply device_get_counts_fails. }
  run_step.
  destruct (plot_histogram_outcome w (filter_counts answer 30)) as [e|] eqn:Hplot.
  { do 3 eexists. split; [done|]. by eapply device_plot_fails. }
  run_step.
  do 3 eexists. split; [done|]. by eapply device_succeeds.
Qed.

Lemma backend_runs_spec w s :
  ∃ res evs d,
    (cell11 w ;; cell13 w) s = (res, State (trace s ++ evs) d)
    ∧ backend_runs w (trace s) res evs.
Proof.
  unfold cell11, mbind at 1 2 3, M_bind at 1 2 3.
  unfold execute at 1, get_counts at 1, plot_histogram at 1.
  unfold mbind at 1 2, M_bind at 1 2, emit, raise. run_step.
  destruct (execute_outcome w _ "ibmqx_hpc_qasm_simulator" _ _) as [e|r] eqn:Hexec.
  { do 3 eexists. split; [done|]. by apply simulator_execute_fails. }
  run_step.
  destruct (get_counts_outcome w r circuitName) as [e|answer] eqn:Hcounts.
  { do 3 eexists. split; [done|]. by eapply simulator_get_counts_fails. }
  run_step.
  destruct (plot_histogram_outcome w answer) as [e|] eqn:Hplot.
  { do 3 eexists. split; [done|]. by eapply simulator_plot_fails. }
  run_step.
  match goal with |- context [cell13 w ?s1] =>
    destruct (device_runs_from_spec w s1) as (res & evs & d & -> & Hdev) end.
  cbn [trace] in *. rewrite <-app_assoc. cbn [app].
  do 3 eexists. split; [|by eapply device_runs].
  done.
Qed.

(** Every run of the notebook ends in one of the ways of [notebook_runs]. *)
Lemma notebook_runs_spec w :
  ∃ res tr d,
    notebook w initial = (res, State tr d) ∧ notebook_runs w res tr.
Proof.
  unfold notebook, mbind at 1, M_bind at 1. rewrite cell5_run.
  destruct (Py.tuple_lt (version_info w) [3; 5]) eqn:Hver.
  { do 3 eexists. split; [done|]. by apply version_check_fails. }
  unfold mbind at 1, M_bind at 1.
  destruct (set_api_outcome w) as [e|] eqn:Hapi.
  { rewrite (cell9_set_api_fails _ _ _ e) by done.
    do 3 eexists. split; [done|]. by apply set_api_fails. }
  destruct (cell9_run w n initial) as [d ->]; [apply n_bounds | done |].
  destruct (backend_runs_spec w (State (trace initial ++ cell9_trace w n (draws initial)) d))
    as (res & evs & d' & -> & Hruns).
  cbn [trace draws initial app] in *.
  do 3 eexists. split; [done|]. by apply backends_run.
Qed.

(** ** Errors *)

Lemma calls_succeed_app w before tr1 tr2 :
  calls_succeed w before (tr1 ++ tr2) ↔
    calls_succeed w before tr1 ∧ calls_succeed w (before ++ tr1) tr2.
Proof.
  revert before. induction tr1 as [|ev tr1 IH]; intros before; cbn.
  - rewrite app_nil_r. tauto.
  - rewrite IH, <-app_assoc. cbn. tauto.
Qed.

Lemma calls_succeed_quiet w before tr :
  Forall (λ ev, quiet ev = true) tr → calls_succeed w before tr.
Proof.
  intros Hq. revert before. induction Hq as [|ev tr Hev _ IH]; intros before; cbn; [done|].
  split; [|apply IH].
  destruct ev; try done; cbn in Hev |- *;
    (case_decide as Hsize; [by rewrite Hsize in Hev | done]).
Qed.

Lemma quiet_selection_trace n p : Forall (λ ev, quiet ev = true) (selection_trace n p).
Proof. unfold selection_trace. destruct (decide _); by repeat constructor. Qed.

Lemma quiet_build_events n p :
  (1 ≤ n)%nat → Forall (λ ev, quiet ev = true) (build_events n p).
Proof.
  intros Hn. unfold build_events. apply Forall_app. split.
  - repeat constructor; cbn; [|by destruct n; [lia|]].
    by replace (n + 1)%nat with (S n) by lia.
  - by apply Forall_fmap, Forall_true.
Qed.

Lemma calls_succeed_cell9_trace w n d :
  (1 ≤ n)%nat →
  set_api_outcome w = None → calls_succeed w [] (cell9_trace w n d).
Proof.
  intros Hn Hapi. unfold cell9_trace. split; [done|].
  apply calls_succeed_quiet, Forall_app.
  split; [apply quiet_selection_trace | by apply quiet_build_events].
Qed.

Lemma snoc2 {A} (l : list A) x y : l ++ [x; y] = (l ++ [x]) ++ [y].
Proof. by rewrite <-app_assoc. Qed.

Lemma snoc3 {A} (l : list A) x y z : l ++ [x; y; z] = (l ++ [x; y]) ++ [z].
Proof. by rewrite <-app_assoc. Qed.

Lemma calls_succeed_snoc w tr ev :
  calls_succeed w [] tr → failed_call w tr ev = None → calls_succeed w [] (tr ++ [ev]).
Proof. intros Htr Hev. apply calls_succeed_app. by cbn. Qed.

Lemma surfaces_failure_at w tr ev msg :
  calls_succeed w [] tr → failed_call w tr ev = Some msg →
  surfaces_failures w (inl (SdkError msg)) (tr ++ [ev]).
Proof. intros Htr Hev. by exists tr, ev, msg. Qed.

Lemma device_runs_from_surfaces w tr1 res evs :
  calls_succeed w [] tr1 → device_runs_from w tr1 res evs →
  surfaces_failures w res (tr1 ++ evs).
Proof.
  intros H1 Hrun. destruct Hrun as [e He|r e He Hc|r answer e He Hc Hp|r answer He Hc Hp].
  - apply surfaces_failure_at; [done|]. cbn. by rewrite He.
  - pose proof (calls_succeed_snoc w tr1 (EvExecute [circuitName] device 1000 (Some 480)) H1
      ltac:(cbn; by rewrite He)) as H2.
    rewrite snoc2.
    apply surfaces_failure_at; [done|]. cbn. by rewrite Hc.
  - pose proof (calls_succeed_snoc w tr1 (EvExecute [circuitName] device 1000 (Some 480)) H1
      ltac:(cbn; by rewrite He)) as H2.
    pose proof (calls_succeed_snoc w _ (EvGetCounts r circuitName) H2
      ltac:(cbn; by rewrite Hc)) as H3.
    rewrite <-snoc2 in H3. rewrite snoc3.
    by apply surfaces_failure_at.
  - cbn. apply calls_succeed_app. split; [done|]. cbn [calls_succeed failed_call app].
    by rewrite He, Hc, Hp.
Qed.

Lemma backend_runs_surfaces w tr0 res evs :
  calls_succeed w [] tr0 → backend_runs w tr0 res evs →
  surfaces_failures w res (tr0 ++ evs).
Proof.
  intros H0 Hrun.
  destruct Hrun as [e He|r e He Hc|r answer e He Hc Hp|r answer res evs He Hc Hp Hdev].
  - apply surfaces_failure_at; [done|]. cbn. by rewrite He.
  - pose proof (calls_succeed_snoc w tr0 (EvExecute [circuitName] simulator 1000 None) H0
      ltac:(cbn; by rewrite He)) as H1.
    rewrite snoc2.
    apply surfaces_failure_at; [done|]. cbn. by rewrite Hc.
  - pose proof (calls_succeed_snoc w tr0 (EvExecute [circuitName] simulator 1000 None) H0
      ltac:(cbn; by rewrite He)) as H1.
    pose proof (calls_succeed_snoc w _ (EvGetCounts r circuitName) H1
      ltac:(cbn; by rewrite Hc)) as H2.
    rewrite <-snoc2 in H2. rewrite snoc3.
    by apply surfaces_failure_at.
  - rewrite app_assoc. apply (device_runs_from_surfaces w _ res evs); [|done].
    apply calls_succeed_app. split; [done|]. cbn [calls_succeed failed_call app].
    by rewrite He, Hc, Hp.
Qed.

Lemma notebook_runs_surfaces w res tr :
  Py.tuple_lt (version_info w) [3; 5] = false →
  notebook_runs w res tr → surfaces_failures w res tr.
Proof.
  intros Hver Hrun. destruct Hrun as [Hlt|e _ Hapi|res evs _ Hapi Hback].
  - congruence.
  - by apply (surfaces_failure_at w [] EvSetApi e).
  - apply backend_runs_surfaces; [|done].
    by apply calls_succeed_cell9_trace; [apply n_positive|].
Qed.

(** C4, as stated, fails: under Python 3.4 the notebook itself raises, in
    the version check of cell 5, before any call is made. *)
Lemma version_check_raises :
  notebook old_python_world initial =
    (inl (NotebookException "Please use Python version 3.5 or greater."), initial).
Proof. by vm_compute. Qed.

(** C4, as amended: when the version check of cell 5 passes
    ([sys.version_info >= (3,5)]), the notebook raises and catches nothing
    itself. A run that ends in an error ends at a call which the external
    library fails, with that error, no earlier call having failed; a run that
    completes made no call that failed. *)
Theorem errors_are_surfaced_sdk_failures (w : World) :
  Py.tuple_lt (version_info w) [3; 5] = false →
  ∃ res s, notebook w initial = (res, s) ∧ surfaces_failures w res (trace s).
Proof.
  intros Hver. destruct (notebook_runs_spec w) as (res & tr & d & Hrun & Hshape).
  exists res, (State tr d). split; [done|]. by apply notebook_runs_surfaces.
Qed.

Lemma errors_are_surfaced_sdk_failures_witness :
  Py.tuple_lt (version_info timeout_world) [3; 5] = false
  ∧ (notebook timeout_world initial).1 = inl (SdkError "QISKitError: timeout")
  ∧ ∃ res s, notebook timeout_world initial = (res, s)
      ∧ surfaces_failures timeout_world res (trace s).
Proof.
  split_and!; [by vm_compute | by vm_compute |].
  apply (errors_are_surfaced_sdk_failures timeout_world). by vm_compute.
Defined.

(** ** The order of the steps *)

Lemma step_of_selection_trace n p :
  Forall (λ ev, step_of ev = Selection) (selection_trace n p).
Proof. unfold selection_trace. destruct (decide _); by repeat constructor. Qed.

Lemma step_of_build_events n p :
  Forall (λ ev, step_of ev = Construction) (build_events n p).
Proof.
  unfold build_events. apply Forall_app. split; [by repeat constructor|].
  by apply Forall_fmap, Forall_true.
Qed.

Lemma step_of_device_runs w tr1 res evs :
  device_runs_from w tr1 res evs → Forall (λ ev, step_of ev = Backend) evs.
Proof. destruct 1; by repeat constructor. Qed.

Lemma step_of_backend_runs w tr0 res evs :
  backend_runs w tr0 res evs → Forall (λ ev, step_of ev = Backend) evs.
Proof.
  destruct 1 as [| | |???? _ _ _ Hdev]; try by repeat constructor.
  apply Forall_app. split; [by repeat constructor|].
  by eapply step_of_device_runs.
Qed.

Lemma other_step (p q : step) tr :
  p ≠ q → Forall (λ ev, step_of ev = p) tr → Forall (λ ev, step_of ev ≠ q) tr.
Proof. intros Hpq. induction 1; constructor; congruence. Qed.

Lemma step_of_cell9_trace w n d :
  Forall (λ ev, step_of ev ≠ Backend) (cell9_trace w n d).
Proof.
  unfold cell9_trace. constructor; [done|]. apply Forall_app. split.
  - by eapply other_step, step_of_selection_trace.
  - by eapply other_step, step_of_build_events.
Qed.

(** In [l1 ++ l2], an event of a step absent from [l2] comes before an
    event of a step absent from [l1]. *)
Lemma lookup_order (l1 l2 : list event) (p q : step) i j ei ej :
  Forall (λ ev, step_of ev ≠ q) l1 → Forall (λ ev, step_of ev ≠ p) l2 →
  (l1 ++ l2) !! i = Some ei → (l1 ++ l2) !! j = Some ej →
  step_of ei = p → step_of ej = q → (i < j)%nat.
Proof.
  intros H1 H2 Hi Hj Hp Hq.
  destruct (decide (j < length l1)%nat) as [Hlt|Hge].
  { rewrite lookup_app_l in Hj by done.
    by destruct (Forall_lookup_1 _ _ _ _ H1 Hj). }
  destruct (decide (i < length l1)%nat) as [Hlt'|Hge']; [lia|].
  rewrite lookup_app_r in Hi by lia.
  by destruct (Forall_lookup_1 _ _ _ _ H2 Hi).
Qed.

Lemma lookup_after (l1 l2 : list event) (q : step) j ej :
  Forall (λ ev, step_of ev ≠ q) l1 →
  (l1 ++ l2) !! j = Some ej → step_of ej = q →
  (length l1 ≤ j)%nat ∧ l2 !! (j - length l1)%nat = Some ej.
Proof.
  intros H1 Hj Hq.
  destruct (decide (j < length l1)%nat) as [Hlt|Hge].
  { rewrite lookup_app_l in Hj by done.
    by destruct (Forall_lookup_1 _ _ _ _ H1 Hj). }
  rewrite lookup_app_r in Hj by lia. split; [lia | done].
Qed.

Lemma gates_of_other_steps tr :
  Forall (λ ev, step_of ev ≠ Construction) tr → gates_of tr = [].
Proof.
  induction 1 as [|ev tr Hev _ IH]; [done|].
  cbn. destruct ev; done.
Qed.

Lemma gates_of_cell9_trace w n d :
  (1 ≤ n)%nat →
  gates_of (cell9_trace w n d) =
    djCircuit n (selected w n d).1.1 (selected w n d).1.2 (selected w n d).2.
Proof.
  intros Hn. unfold cell9_trace.
  change (EvSetApi :: ?l) with ([EvSetApi] ++ l).
  rewrite !gates_of_app, (gates_of_other_steps (selection_trace _ _)).
  - cbn [gates_of omap list_omap app]. rewrite gates_of_build_events.
    symmetry. apply djCircuit_bound; [done | apply selected_bound].
  - by eapply other_step, step_of_selection_trace.
Qed.

(** Case analysis on the position [j] of an event in an explicit list:
    [k] is run at the positions whose event can be the one looked up. *)
Ltac find_event j Hj k :=
  destruct j as [|j];
  [ cbn in Hj; first [discriminate | k]
  | first [cbn in Hj; discriminate | find_event j Hj k] ].

(** A histogram is plotted two events after an [execute] and one event
    after the [get_counts] whose answer it shows. *)
Lemma backend_runs_plot w tr0 res evs (j : nat) d :
  backend_runs w tr0 res evs →
  evs !! j = Some (EvPlotHistogram d) →
  ∃ names backend shots timeout r answer,
    (2 ≤ j)%nat
    ∧ evs !! (j - 2)%nat = Some (EvExecute names backend shots timeout)
    ∧ evs !! (j - 1)%nat = Some (EvGetCounts r circuitName)
    ∧ get_counts_outcome w r circuitName = inr answer
    ∧ (d = answer ∨ d = filter_counts answer 30).
Proof.
  intros Hrun Hj.
  destruct Hrun as [e He|r e He Hc|r answer e He Hc Hp|r answer res evs He Hc Hp Hdev];
    [| | |destruct Hdev as [e' He'|r' e' He' Hc'|r' answer' e' He' Hc' Hp'
                            |r' answer' He' Hc' Hp']];
    cbn [app] in Hj;
    find_event j Hj ltac:(
      injection Hj as <-;
      do 6 eexists; (split_and!;
        [lia | reflexivity | reflexivity | eassumption | first [by left | by right]])).
Qed.

Lemma notebook_plot w (j : nat) d :
  trace (notebook w initial).2 !! j = Some (EvPlotHistogram d) →
  ∃ (k i : nat) names backend shots timeout r answer,
    (k < i < j)%nat
    ∧ trace (notebook w initial).2 !! k = Some (EvExecute names backend shots timeout)
    ∧ trace (notebook w initial).2 !! i = Some (EvGetCounts r circuitName)
    ∧ get_counts_outcome w r circuitName = inr answer
    ∧ (d = answer ∨ d = filter_counts answer 30).
Proof.
  destruct (notebook_runs_spec w) as (res & tr & d0 & -> & Hrun). cbn [snd trace].
  intros Hj. destruct Hrun as [Hlt|e _ Hapi|res evs _ Hapi Hback].
  - by rewrite lookup_nil in Hj.
  - by destruct j as [|[|j]].
  - destruct (lookup_after _ _ Backend _ _ (step_of_cell9_trace w n 0) Hj eq_refl)
      as [Hlen Hj'].
    destruct (backend_runs_plot _ _ _ _ _ _ Hback Hj')
      as (names & backend & shots & timeout & r & answer & Hj2 & Hk & Hi & Hc & Hd).
    exists (j - 2)%nat, (j - 1)%nat, names, backend, shots, timeout, r, answer.
    split_and!; [lia | lia | | | done | done].
    + rewrite lookup_app_r by lia. rewrite <-Hk. f_equal. lia.
    + rewrite lookup_app_r by lia. rewrite <-Hi. f_equal. lia.
Qed.

(** C7: in every run, each draw of an oracle parameter comes before each
    gate call; when the backend is invoked, every gate call has been made
    and the gates appended so far are the complete circuit of the selected
    parameters; and a histogram is plotted only after an [execute] and the
    [get_counts] that returned the counts it shows (as they are, or
    filtered). *)
Theorem steps_run_in_order (w : World) :
  let tr := trace (notebook w initial).2 in
  (∀ (i j : nat) low high g,
     tr !! i = Some (EvRandint low high) → tr !! j = Some (EvGate g) → (i < j)%nat)
  ∧ (∀ (j : nat) names backend shots timeout,
       tr !! j = Some (EvExecute names backend shots timeout) →
       (∀ (i : nat) g, tr !! i = Some (EvGate g) → (i < j)%nat)
       ∧ ∃ oracleType oracleValue a,
           parameters_bound oracleType a
           ∧ gates_of (take j tr) = djCircuit n oracleType oracleValue a)
  ∧ (∀ (j : nat) d,
       tr !! j = Some (EvPlotHistogram d) →
       ∃ (k i : nat) names backend shots timeout r answer,
         (k < i < j)%nat
         ∧ tr !! k = Some (EvExecute names backend shots timeout)
         ∧ tr !! i = Some (EvGetCounts r circuitName)
         ∧ get_counts_outcome w r circuitName = inr answer
         ∧ (d = answer ∨ d = filter_counts answer 30)).
Proof.
  intros tr. split_and!; [| |apply notebook_plot].
  - subst tr. destruct (notebook_runs_spec w) as (res & tr & d0 & -> & Hrun).
    cbn [snd trace]. intros i j low high g Hi Hj.
    destruct Hrun as [Hlt|e _ Hapi|res evs _ Hapi Hback].
    + by rewrite lookup_nil in Hi.
    + by destruct j as [|[|j]].
    + unfold cell9_trace in Hi, Hj.
      rewrite app_comm_cons, <-app_assoc in Hi, Hj.
      eapply (lookup_order _ _ Selection Construction); [| |exact Hi|exact Hj|done|done].
      * constructor; [done|]. by eapply other_step, step_of_selection_trace.
      * apply Forall_app. split.
        -- by eapply other_step, step_of_build_events.
        -- by eapply other_step, step_of_backend_runs.
  - subst tr. destruct (notebook_runs_spec w) as (res & tr & d0 & -> & Hrun).
    cbn [snd trace]. intros j names backend shots timeout Hj.
    destruct Hrun as [Hlt|e _ Hapi|res evs _ Hapi Hback].
    + by rewrite lookup_nil in Hj.
    + by destruct j as [|[|j]].
    + pose proof (step_of_backend_runs _ _ _ _ Hback) as Hevs.
      split.
      * intros i g Hi.
        eapply (lookup_order _ _ Construction Backend); [| |exact Hi|exact Hj|done|done].
        -- apply step_of_cell9_trace.
        -- by apply (other_step Backend Construction).
      * destruct (lookup_after _ _ Backend _ _ (step_of_cell9_trace w n 0) Hj eq_refl)
          as [Hlen _].
        eexists _, _, _. split; [apply (selected_bound w n 0)|].
        rewrite take_app_ge, gates_of_app by done.
        rewrite gates_of_cell9_trace by apply n_positive.
        rewrite (gates_of_other_steps (take _ evs)); [apply app_nil_r|].
        apply Forall_take. by apply (other_step Backend Construction).
Qed.

Lemma steps_run_in_order_witness :
  trace (notebook sample_world initial).2 !! 1%nat = Some (EvRandint 0 2)
  ∧ trace (notebook sample_world initial).2 !! 8%nat = Some (EvGate (gate_h (qr_of n, 0%nat)))
  ∧ trace (notebook sample_world initial).2 !! 58%nat
      = Some (EvExecute [circuitName] simulator 1000 None)
  ∧ (1 < 8)%nat
  ∧ (8 < 58)%nat.
Proof.
  assert (trace (notebook sample_world initial).2 !! 1%nat = Some (EvRandint 0 2))
    as H1 by (by vm_compute).
  assert (trace (notebook sample_world initial).2 !! 8%nat
          = Some (EvGate (gate_h (qr_of n, 0%nat)))) as H8 by (by vm_compute).
  assert (trace (notebook sample_world initial).2 !! 58%nat
          = Some (EvExecute [circuitName] simulator 1000 None)) as H58 by (by vm_compute).
  split_and!; [done | done | done | |].
  - exact (proj1 (steps_run_in_order sample_world) 1%nat 8%nat 0 2 _ H1 H8).
  - exact (proj1 (proj1 (proj2 (steps_run_in_order sample_world)) 58%nat _ _ _ _ H58)
             8%nat _ H8).
Defined.

(** ** The dictionaries that are plotted *)

(** C6, as stated, fails: on the real-device run the plotted dictionary has
    the key ['other_bitstring'], which is no key of the counts the backend
    returned. *)
Lemma plotted_key_not_observed :
  EvPlotHistogram (filter_counts sample_counts 30)
    ∈ trace (notebook sample_world initial).2
  ∧ filter_counts sample_counts 30 !! "other_bitstring" = Some 20
  ∧ sample_counts !! "other_bitstring" = None
  ∧ (∀ r name, get_counts_outcome sample_world r name = inr sample_counts).
Proof.
  split_and!; [|by vm_compute|by vm_compute|done].
  apply list_elem_of_lookup. exists 63%nat. by vm_compute.
Qed.

(** C6, as amended: every dictionary handed to [plot_histogram] comes from
    the counts [answer] that a [get_counts] of the run returned: each of its
    keys is a key of [answer] with the same count, or is the key
    ['other_bitstring'] that the filtering adds. *)
Theorem plotted_keys_observed_or_other (w : World) (d : gmap string Z) :
  EvPlotHistogram d ∈ trace (notebook w initial).2 →
  ∃ r answer,
    EvGetCounts r circuitName ∈ trace (notebook w initial).2
    ∧ get_counts_outcome w r circuitName = inr answer
    ∧ ∀ k v, d !! k = Some v → k = "other_bitstring" ∨ answer !! k = Some v.
Proof.
  intros [j Hj]%list_elem_of_lookup.
  destruct (notebook_plot w j d Hj)
    as (k & i & names & backend & shots & timeout & r & answer & _ & _ & Hi & Hc & Hd).
  exists r, answer. split_and!; [by eapply list_elem_of_lookup_2 | done |].
  intros key v Hkey. destruct Hd as [->| ->]; [by right|].
  by eapply filter_counts_keys.
Qed.

Lemma plotted_keys_observed_or_other_witness :
  EvPlotHistogram (filter_counts sample_counts 30)
    ∈ trace (notebook sample_world initial).2
  ∧ ∃ r answer,
      EvGetCounts r circuitName ∈ trace (notebook sample_world initial).2
      ∧ get_counts_outcome sample_world r circuitName = inr answer
      ∧ ∀ k v, filter_counts sample_counts 30 !! k = Some v →
          k = "other_bitstring" ∨ answer !! k = Some v.
Proof.
  assert (EvPlotHistogram (filter_counts sample_counts 30)
            ∈ trace (notebook sample_world initial).2) as Hplot.
  { apply list_elem_of_lookup. exists 63%nat. by vm_compute. }
  split; [exact Hplot|].
  exact (plotted_keys_observed_or_other sample_world _ Hplot).
Defined.

(** * Further properties of the cells *)

(** ** The version check of cell 5 *)

Lemma tuple_lt_3_5 major minor rest :
  Py.tuple_lt (major :: minor :: rest) [3; 5] = true ↔
    major < 3 ∨ (major = 3 ∧ minor < 5).
Proof.
  cbn. destruct (Z.ltb_spec major 3), (Z.ltb_spec 3 major),
    (Z.ltb_spec minor 5), (Z.ltb_spec 5 minor);
    (split; [intros ?; try done; try lia | intros ?; try done; try lia]);
    destruct rest; done || lia.
Qed.

(** X1: the notebook stops in cell 5, with its own exception and before
    any call is made, exactly when the Python version is below 3.5: major
    version below 3, or major version 3 and minor version below 5. *)
Theorem version_gate (w : World) (major minor : Z) (rest : list Z) :
  version_info w = major :: minor :: rest →
  notebook w initial =
    (inl (NotebookException "Please use Python version 3.5 or greater."), initial)
  ↔ major < 3 ∨ (major = 3 ∧ minor < 5).
Proof.
  intros Hver. rewrite <-tuple_lt_3_5, <-Hver. split.
  - intros Hrun.
    destruct (Py.tuple_lt (version_info w) [3; 5]) eqn:Hlt; [done|].
    destruct (notebook_runs_spec w) as (res & tr & d & Hrun' & Hshape).
    pose proof (notebook_runs_surfaces w res tr Hlt Hshape) as Hs.
    rewrite Hrun in Hrun'. injection Hrun' as <- <- <-.
    by destruct Hs as (? & ? & ? & _ & _ & _ & ?).
  - intros Hlt. unfold notebook, mbind, M_bind. by rewrite cell5_run, Hlt.
Qed.

Lemma version_gate_witness :
  version_info old_python_world = 3 :: 4 :: [3]
  ∧ (notebook old_python_world initial =
      (inl (NotebookException "Please use Python version 3.5 or greater."), initial)
     ↔ 3 < 3 ∨ (3 = 3 ∧ 4 < 5)).
Proof.
  split; [reflexivity|].
  apply (version_gate old_python_world 3 4 [3]). reflexivity.
Defined.

(** ** The oracle as a reversible gate *)

Lemma land_pow2_small x (n : nat) :
  0 ≤ x < 2 ^ Z.of_nat n → Z.land x (2 ^ Z.of_nat n) = 0.
Proof.
  intros Hx. apply Z.bits_inj'. intros m Hm.
  rewrite Z.land_spec, Z.bits_0, Z.pow2_bits_eqb by lia.
  destruct (Z.eqb_spec (Z.of_nat n) m) as [<-|]; [|apply andb_false_r].
  by rewrite testbit_small.
Qed.

Lemma flip_answer_0 x (n : nat) :
  0 ≤ x < 2 ^ Z.of_nat n → flip x n = x + 2 ^ Z.of_nat n.
Proof.
  intros Hx. unfold flip. rewrite Z.shiftl_1_l.
  symmetry. apply Z.add_nocarry_lxor. by apply land_pow2_small.
Qed.

Lemma flip_answer_1 x (n : nat) :
  0 ≤ x < 2 ^ Z.of_nat n → flip (x + 2 ^ Z.of_nat n) n = x.
Proof. intros Hx. rewrite <-flip_answer_0 by done. apply flip_flip. Qed.

Lemma parity_bits_add_pow2 a x (n : nat) :
  parity_bits n (Z.land a (x + 2 ^ Z.of_nat n)) = parity_bits n (Z.land a x).
Proof.
  apply parity_bits_ext. intros i Hi.
  by rewrite !Z.land_spec, (Z.add_comm x), testbit_add_pow2_low.
Qed.

Lemma parity_bits_flip a s (n : nat) :
  parity_bits n (Z.land a (flip s n)) = parity_bits n (Z.land a s).
Proof.
  apply parity_bits_ext. intros i Hi.
  rewrite !Z.land_spec, testbit_flip, bool_decide_eq_false_2 by lia.
  by rewrite xorb_false_r.
Qed.

(** What the gates of an oracle do to a basis state: they flip the answer
    qubit or leave the state alone. *)
Lemma run_oracle_gates (n : nat) oracleType oracleValue a :
  parameters_bound oracleType a →
  ∃ flips : Z → bool,
    (∀ s, flips (flip s n) = flips s)
    ∧ (∀ x, flips (x + 2 ^ Z.of_nat n) = flips x)
    ∧ ∀ s, run_classical (oracle_gates (qr_of n) n oracleType oracleValue a) s
           = Some (if flips s then flip s n else s).
Proof.
  intros Hb. destruct (decide (oracleType = 0)) as [->|HoT].
  - rewrite oracle_gates_constant.
    exists (λ _, bool_decide (oracleValue = 1)). split_and!; [done..|].
    intros s'. by destruct (decide (oracleValue = 1));
      [rewrite bool_decide_eq_true_2 | rewrite bool_decide_eq_false_2].
  - destruct Hb as [?|[a' ->]]; [done|].
    rewrite oracle_gates_balanced by done.
    exists (λ s, parity_bits n (Z.land a' s)). split_and!.
    + intros s'. apply parity_bits_flip.
    + intros x. apply parity_bits_add_pow2.
    + intros s'. by apply run_cx_gates.
Qed.

(** X2: the oracle maps the basis state of query [x] and answer bit [y] to
    the state of the same query and answer bit [y XOR f(x)], where [f] is
    its boolean function: the query qubits are never changed. *)
Theorem oracle_xors_answer (n : nat) (oracleType oracleValue : Z) (a : option Z) (x y : Z) :
  parameters_bound oracleType a →
  0 ≤ x < 2 ^ Z.of_nat n →
  0 ≤ y < 2 →
  ∃ fx,
    oracle_function n (oracle_gates (qr_of n) n oracleType oracleValue a) x = Some fx
    ∧ run_classical (oracle_gates (qr_of n) n oracleType oracleValue a)
        (x + 2 ^ Z.of_nat n * y)
      = Some (x + 2 ^ Z.of_nat n * Z.lxor y fx).
Proof.
  intros Hb Hx Hy.
  destruct (run_oracle_gates n oracleType oracleValue a Hb) as (flips & _ & Hadd & Hrun).
  unfold oracle_function. rewrite !Hrun. cbn.
  assert (flips (x + 2 ^ Z.of_nat n * y) = flips x) as ->.
  { assert (y = 0 ∨ y = 1) as [-> | ->] by lia.
    - by rewrite Z.mul_0_r, Z.add_0_r.
    - by rewrite Z.mul_1_r. }
  eexists. split; [done|]. f_equal.
  assert (y = 0 ∨ y = 1) as [-> | ->] by lia; destruct (flips x).
  - rewrite testbit_flip, bool_decide_eq_true_2, testbit_small by done.
    change (Z.lxor 0 (Z.b2z (xorb false true))) with 1.
    rewrite Z.mul_0_r, Z.add_0_r. rewrite flip_answer_0 by done. lia.
  - rewrite testbit_small by done. change (Z.lxor 0 (Z.b2z false)) with 0. lia.
  - rewrite testbit_flip, bool_decide_eq_true_2, testbit_small by done.
    change (Z.lxor 1 (Z.b2z (xorb false true))) with 0.
    rewrite Z.mul_1_r, flip_answer_1 by done. lia.
  - rewrite testbit_small by done. change (Z.lxor 1 (Z.b2z false)) with 1. lia.
Qed.

Lemma oracle_xors_answer_witness :
  parameters_bound 1 (Some 5) ∧ 0 ≤ 6 < 2 ^ Z.of_nat n ∧ 0 ≤ 1 < 2
  ∧ ∃ fx,
      oracle_function n (oracle_gates (qr_of n) n 1 0 (Some 5)) 6 = Some fx
      ∧ run_classical (oracle_gates (qr_of n) n 1 0 (Some 5)) (6 + 2 ^ Z.of_nat n * 1)
        = Some (6 + 2 ^ Z.of_nat n * Z.lxor 1 fx).
Proof.
  assert (parameters_bound 1 (Some 5)) as Hb by (right; by eexists).
  assert (0 ≤ 6 < 2 ^ Z.of_nat n) as Hx by (by vm_compute).
  assert (0 ≤ 1 < 2) as Hy by lia.
  split_and!; [done..|].
  exact (oracle_xors_answer n 1 0 (Some 5) 6 1 Hb Hx Hy).
Defined.

(** X3: the oracle is its own inverse: applied twice, its gates restore
    every basis state. *)
Theorem oracle_self_inverse (n : nat) (oracleType oracleValue : Z) (a : option Z) (s : Z) :
  parameters_bound oracleType a →
  run_classical
    (oracle_gates (qr_of n) n oracleType oracleValue a
     ++ oracle_gates (qr_of n) n oracleType oracleValue a) s
  = Some s.
Proof.
  intros Hb.
  destruct (run_oracle_gates n oracleType oracleValue a Hb) as (flips & Hflip & _ & Hrun).
  rewrite run_classical_app, Hrun. cbn. rewrite Hrun.
  destruct (flips s) eqn:Hs; [|by rewrite Hs].
  by rewrite Hflip, Hs, flip_flip.
Qed.

Lemma oracle_self_inverse_witness :
  parameters_bound 0 None
  ∧ run_classical
      (oracle_gates (qr_of n) n 0 1 None ++ oracle_gates (qr_of n) n 0 1 None) 77
    = Some 77.
Proof.
  assert (parameters_bound 0 None) as Hb by (by left).
  split; [done|]. exact (oracle_self_inverse n 0 1 None 77 Hb).
Defined.

(** ** The balanced oracle as an inner product *)

Lemma oracle_function_balanced_bit qr (n : nat) oracleType oracleValue a x :
  oracleType ≠ 0 → Z.testbit x (Z.of_nat n) = false →
  oracle_function n (oracle_gates qr n oracleType oracleValue (Some a)) x =
    Some (parity n (Z.land a x)).
Proof.
  intros HoT Hx. unfold oracle_function, parity.
  rewrite oracle_gates_balanced, run_cx_gates by done. cbn. do 2 f_equal.
  destruct (parity_bits n (Z.land a x)).
  - by rewrite testbit_flip, bool_decide_eq_true_2, Hx.
  - done.
Qed.

Lemma testbit_above x (n : nat) m :
  0 ≤ x < 2 ^ Z.of_nat n → Z.of_nat n ≤ m → Z.testbit x m = false.
Proof.
  intros Hx Hm. destruct (decide (x = 0)) as [->|]; [apply Z.bits_0|].
  apply Z.bits_above_log2; [lia|].
  assert (Z.log2 x < Z.of_nat n) by (apply Z.log2_lt_pow2; lia). lia.
Qed.

Lemma parity_bits_single a (i n : nat) :
  parity_bits n (Z.land a (2 ^ Z.of_nat i)) =
    bool_decide (i < n)%nat && Z.testbit a (Z.of_nat i).
Proof.
  induction n as [|n IH]; [done|].
  rewrite parity_bits_S, IH, Z.land_spec, Z.pow2_bits_eqb by lia.
  destruct (Z.eqb_spec (Z.of_nat i) (Z.of_nat n)) as [Heq|Hne].
  - assert (i = n) as -> by lia.
    rewrite bool_decide_eq_false_2, bool_decide_eq_true_2 by lia.
    by destruct (Z.testbit a (Z.of_nat n)).
  - rewrite andb_false_r, xorb_false_r.
    destruct (decide (i < n)%nat).
    + by rewrite !bool_decide_eq_true_2 by lia.
    + by rewrite !bool_decide_eq_false_2 by lia.
Qed.

Lemma pow2_in_range (i n : nat) : (i < n)%nat → 0 ≤ 2 ^ Z.of_nat i < 2 ^ Z.of_nat n.
Proof.
  intros Hi. split; [apply Z.pow_nonneg; lia|]. apply Z.pow_lt_mono_r; lia.
Qed.

Lemma oracle_function_pow2 (n : nat) oracleType oracleValue a (i : nat) :
  oracleType ≠ 0 → (i < n)%nat →
  oracle_function n (oracle_gates (qr_of n) n oracleType oracleValue (Some a))
    (2 ^ Z.of_nat i)
  = Some (Z.b2z (Z.testbit a (Z.of_nat i))).
Proof.
  intros HoT Hi.
  rewrite oracle_function_balanced by (done || by apply pow2_in_range).
  unfold parity. by rewrite parity_bits_single, bool_decide_eq_true_2.
Qed.

(** X4: the balanced oracle answers 0 on the query 0, and on the query with
    the single bit [i] set it answers bit [i] of the hidden parameter: [n]
    classical queries read the mask. *)
Theorem mask_bits_readable (n : nat) (oracleValue a : Z) (i : nat) :
  (i < n)%nat →
  oracle_function n (oracle_gates (qr_of n) n 1 oracleValue (Some a)) 0 = Some 0
  ∧ oracle_function n (oracle_gates (qr_of n) n 1 oracleValue (Some a)) (2 ^ Z.of_nat i)
    = Some (Z.b2z (Z.testbit a (Z.of_nat i))).
Proof.
  intros Hi. split; [|by apply oracle_function_pow2].
  rewrite oracle_function_balanced_bit by (done || apply Z.bits_0).
  unfold parity. rewrite Z.land_0_r.
  replace (parity_bits n 0) with false; [done|].
  unfold parity_bits. induction (seq 0 n) as [|j l IH]; cbn; [done|].
  by rewrite <-IH, Z.bits_0.
Qed.

Lemma mask_bits_readable_witness :
  (2 < n)%nat
  ∧ oracle_function n (oracle_gates (qr_of n) n 1 0 (Some 5)) (2 ^ Z.of_nat 2)
    = Some (Z.b2z (Z.testbit 5 (Z.of_nat 2))).
Proof.
  assert (2 < n)%nat as Hi by (unfold n; lia).
  split; [done|]. exact (proj2 (mask_bits_readable n 0 5 2 Hi)).
Defined.

(** X5: two hidden parameters below [2^n] whose balanced oracles agree on
    every query are equal: the oracle determines the mask. *)
Theorem oracle_determines_mask (n : nat) (oracleValue oracleValue' a a' : Z) :
  0 ≤ a < 2 ^ Z.of_nat n →
  0 ≤ a' < 2 ^ Z.of_nat n →
  (∀ x, x ∈ inputs n →
     oracle_function n (oracle_gates (qr_of n) n 1 oracleValue (Some a)) x
     = oracle_function n (oracle_gates (qr_of n) n 1 oracleValue' (Some a')) x) →
  a = a'.
Proof.
  intros Ha Ha' Hsame. apply Z.bits_inj'. intros m Hm.
  destruct (decide (m < Z.of_nat n)) as [Hlt|Hge].
  - specialize (Hsame (2 ^ m)).
    replace m with (Z.of_nat (Z.to_nat m)) in * by lia.
    rewrite !oracle_function_pow2 in Hsame by (done || lia).
    ospecialize (Hsame _). { apply elem_of_inputs, pow2_in_range. lia. }
    injection Hsame.
    by destruct (Z.testbit a _), (Z.testbit a' _).
  - by rewrite !(testbit_above _ n) by (done || lia).
Qed.

Lemma oracle_determines_mask_witness :
  0 ≤ 5 < 2 ^ Z.of_nat n
  ∧ (∀ x, x ∈ inputs n →
       oracle_function n (oracle_gates (qr_of n) n 1 0 (Some 5)) x
       = oracle_function n (oracle_gates (qr_of n) n 1 1 (Some (1 + 4))) x)
  ∧ 5 = 1 + 4.
Proof.
  assert (0 ≤ 5 < 2 ^ Z.of_nat n) as Ha by (by vm_compute).
  assert (∀ x, x ∈ inputs n →
       oracle_function n (oracle_gates (qr_of n) n 1 0 (Some 5)) x
       = oracle_function n (oracle_gates (qr_of n) n 1 1 (Some (1 + 4))) x) as Hsame.
  { intros x Hx%elem_of_inputs. by rewrite !oracle_function_balanced. }
  split; [done|]. split; [done|].
  exact (oracle_determines_mask n 0 1 5 (1 + 4) Ha Ha Hsame).
Defined.

Lemma parity_bits_lxor a x x' (n : nat) :
  parity_bits n (Z.land a (Z.lxor x x')) =
    xorb (parity_bits n (Z.land a x)) (parity_bits n (Z.land a x')).
Proof.
  induction n as [|n IH]; [done|].
  rewrite !parity_bits_S, IH, !Z.land_spec, Z.lxor_spec.
  destruct (parity_bits n (Z.land a x)), (parity_bits n (Z.land a x')),
    (Z.testbit a (Z.of_nat n)), (Z.testbit x (Z.of_nat n)),
    (Z.testbit x' (Z.of_nat n)); done.
Qed.

(** X6: the balanced oracle is linear over XOR: on the bitwise XOR of two
    queries it answers the XOR of its answers. *)
Theorem balanced_oracle_linear (n : nat) (oracleValue a x x' fx fx' : Z) :
  x ∈ inputs n → x' ∈ inputs n →
  oracle_function n (oracle_gates (qr_of n) n 1 oracleValue (Some a)) x = Some fx →
  oracle_function n (oracle_gates (qr_of n) n 1 oracleValue (Some a)) x' = Some fx' →
  oracle_function n (oracle_gates (qr_of n) n 1 oracleValue (Some a)) (Z.lxor x x')
  = Some (Z.lxor fx fx').
Proof.
  intros Hx%elem_of_inputs Hx'%elem_of_inputs.
  rewrite !oracle_function_balanced by done.
  rewrite oracle_function_balanced_bit; [|done|].
  - intros [= <-] [= <-]. unfold parity. rewrite parity_bits_lxor.
    by destruct (parity_bits n (Z.land a x)), (parity_bits n (Z.land a x')).
  - by rewrite Z.lxor_spec, !testbit_small.
Qed.

Lemma balanced_oracle_linear_witness :
  oracle_function n (oracle_gates (qr_of n) n 1 0 (Some 5)) (Z.lxor 4 7)
  = Some (Z.lxor 1 0).
Proof.
  assert (4 ∈ inputs n) as H4 by (apply elem_of_inputs; by vm_compute).
  assert (7 ∈ inputs n) as H7 by (apply elem_of_inputs; by vm_compute).
  apply (balanced_oracle_linear n 0 5 4 7 1 0 H4 H7); by vm_compute.
Defined.

(** ** The shape of the circuit *)

Lemma qubit_ok_query (n i : nat) : (i ≤ n)%nat → qubit_ok n (qr_of n, i).
Proof. intros Hi. split; [done|]. cbn. lia. Qed.

Lemma gate_ok_cx_gates (n k : nat) a :
  (k ≤ n)%nat → Forall (gate_ok n) (cx_gates (qr_of n) n a k).
Proof.
  induction k as [|k IH]; intros Hk; [by constructor|].
  rewrite cx_gates_S. apply Forall_app. split; [apply IH; lia|].
  destruct (Z.testbit a (Z.of_nat k)); repeat constructor.
  - by apply qubit_ok_query; lia.
  - by apply qubit_ok_query.
  - intros [= Heq]. lia.
Qed.

Lemma gate_ok_oracle_gates n oracleType oracleValue a :
  parameters_bound oracleType a →
  Forall (gate_ok n) (oracle_gates (qr_of n) n oracleType oracleValue a).
Proof.
  intros Hb. destruct (decide (oracleType = 0)) as [->|HoT].
  - rewrite oracle_gates_constant.
    destruct (decide (oracleValue = 1)); repeat constructor; by apply qubit_ok_query.
  - destruct Hb as [?|[a' ->]]; [done|].
    rewrite oracle_gates_balanced by done. by apply gate_ok_cx_gates.
Qed.

Lemma Forall_fmap_range (P : gate → Prop) (f : nat → gate) (n : nat) :
  (∀ i, (i < n)%nat → P (f i)) → Forall P (f <$> range n).
Proof.
  intros Hf. apply Forall_fmap, Forall_forall. intros i Hi.
  apply Hf. unfold range in Hi. apply in_seq in Hi. lia.
Qed.

(** X7: every gate of the circuit refers to bits that exist: its qubits
    are qubits of [qr] with an index below [n + 1], its classical bits are
    bits of [cr] with an index below [n], and the control and the target of
    a CNOT differ; no gate call indexes a register out of range. *)
Theorem circuit_within_registers (n : nat) (oracleType oracleValue : Z) (a : option Z) :
  parameters_bound oracleType a →
  Forall (gate_ok n) (djCircuit n oracleType oracleValue a).
Proof.
  intros Hb. destruct (decide (n = 0%nat)) as [->|Hn].
  { unfold djCircuit. rewrite build_trace_0. constructor. }
  rewrite djCircuit_bound by (done || lia).
  unfold circuit_prefix, circuit_suffix.
  apply Forall_app; split; [apply Forall_app; split|].
  - apply Forall_fmap_range. intros i Hi. apply qubit_ok_query. lia.
  - constructor; [by apply qubit_ok_query|].
    constructor; [by apply qubit_ok_query|].
    constructor; [done | constructor].
  - apply Forall_app; split; [by apply gate_ok_oracle_gates|].
    constructor; [done|]. apply Forall_app; split.
    + apply Forall_fmap_range. intros i Hi. apply qubit_ok_query. lia.
    + apply Forall_fmap_range. intros i Hi.
      split; [apply qubit_ok_query; lia|]. by split.
Qed.

Lemma circuit_within_registers_witness :
  parameters_bound 1 (Some 1234)
  ∧ Forall (gate_ok n) (djCircuit n 1 0 (Some 1234)).
Proof.
  assert (parameters_bound 1 (Some 1234)) as Hb by (right; by eexists).
  split; [done|]. exact (circuit_within_registers n 1 0 (Some 1234) Hb).
Defined.

Lemma length_cx_gates qr tgt a k :
  length (cx_gates qr tgt a k) = length (set_bits k a).
Proof.
  induction k as [|k IH]; [done|].
  rewrite cx_gates_S, length_app, IH. unfold set_bits, range.
  rewrite seq_S, list.filter_app, length_app. f_equal. cbn [Nat.add].
  rewrite filter_cons, filter_nil.
  by destruct (Z.testbit a (Z.of_nat k)).
Qed.

Lemma length_set_bits_bounds (n : nat) a :
  1 ≤ a < 2 ^ Z.of_nat n → (1 ≤ length (set_bits n a) ≤ n)%nat.
Proof.
  intros Ha. split.
  - destruct (set_bit_below a n Ha) as (i & Hi & Hbit).
    assert (i ∈ set_bits n a) as Hin.
    { unfold set_bits, range. apply list_elem_of_filter. split; [done|].
      apply elem_of_seq. lia. }
    destruct (set_bits n a); [by apply elem_of_nil in Hin | cbn; lia].
  - unfold set_bits. etrans; [apply length_filter|].
    unfold range. by rewrite length_seq.
Qed.

Lemma length_circuit_prefix n : length (circuit_prefix n) = (n + 3)%nat.
Proof.
  unfold circuit_prefix, range. rewrite length_app, length_fmap, length_seq. done.
Qed.

Lemma length_circuit_suffix n : length (circuit_suffix n) = (2 * n + 1)%nat.
Proof.
  unfold circuit_suffix, range. cbn [length].
  rewrite length_app, !length_fmap, !length_seq. lia.
Qed.

(** X8: with at least one query qubit, the circuit has [3n + 4] gate calls
    and those of the oracle: one
    for a constant oracle, and one CNOT per set bit of the hidden parameter
    for a balanced one, which for [1 <= a < 2^n] is at least one and at most
    [n]. *)
Theorem circuit_gate_count (n : nat) (oracleType oracleValue : Z) (a : option Z) :
  (1 ≤ n)%nat →
  parameters_bound oracleType a →
  (oracleType = 0 →
     length (djCircuit n oracleType oracleValue a) = (3 * n + 5)%nat)
  ∧ (∀ v, oracleType ≠ 0 → a = Some v →
       length (djCircuit n oracleType oracleValue a)
       = (3 * n + 4 + length (set_bits n v))%nat
       ∧ (1 ≤ v < 2 ^ Z.of_nat n →
          (3 * n + 5 ≤ length (djCircuit n oracleType oracleValue a) ≤ 4 * n + 4)%nat)).
Proof.
  intros Hn Hb. rewrite djCircuit_bound by done.
  rewrite !length_app, length_circuit_prefix, length_circuit_suffix. split.
  - intros ->. rewrite oracle_gates_constant. cbn [length]. lia.
  - intros v HoT ->. rewrite oracle_gates_balanced, length_cx_gates by done.
    split; [lia|]. intros Hv%length_set_bits_bounds. lia.
Qed.

Lemma circuit_gate_count_witness :
  (1 ≤ n)%nat
  ∧ parameters_bound 1 (Some 5)
  ∧ length (djCircuit n 1 0 (Some 5)) = (3 * n + 4 + length (set_bits n 5))%nat.
Proof.
  assert (parameters_bound 1 (Some 5)) as Hb by (right; by eexists).
  split; [apply n_positive|]. split; [done|].
  exact (proj1 (proj2 (circuit_gate_count n 1 0 (Some 5) n_positive Hb)
                  5 ltac:(done) eq_refl)).
Defined.

(** ** More on the filtering of the counts *)

Lemma values_sum_empty : values_sum ∅ = 0.
Proof. unfold values_sum. by rewrite map_to_list_empty. Qed.

Lemma values_sum_delete (d : gmap string Z) k :
  values_sum d = default 0 (d !! k) + values_sum (delete k d).
Proof.
  destruct (d !! k) as [x|] eqn:Hk; cbn.
  - rewrite <-(insert_delete_id d k x Hk) at 1.
    apply values_sum_insert, lookup_delete_eq.
  - by rewrite delete_id.
Qed.

Lemma items_significant threshold (answer : gmap string Z) :
  Forall (λ kv, threshold ≤ kv.2) (map_to_list (significant threshold answer)).
Proof.
  apply list.Forall_forall. intros [k v] Hkv%elem_of_map_to_list.
  unfold significant in Hkv. by apply map_lookup_filter_Some in Hkv as [_ ?].
Qed.

Lemma total_lower (l : list (string * Z)) threshold :
  Forall (λ kv, threshold ≤ kv.2) l →
  Z.of_nat (length l) * threshold ≤ Py.total l.*2.
Proof.
  unfold Py.total. induction 1 as [|[k v] l Hv _ IH]; cbn [length fmap list_fmap foldr snd] in *;
    [cbn; lia | lia].
Qed.

Lemma values_sum_nonneg (d : gmap string Z) :
  (∀ k v, d !! k = Some v → 0 ≤ v) → 0 ≤ values_sum d.
Proof.
  intros Hd. unfold values_sum.
  assert (Forall (λ kv : string * Z, 0 ≤ kv.2) (map_to_list d)) as Hall.
  { apply list.Forall_forall. intros [k v] Hkv%elem_of_map_to_list. by eapply Hd. }
  unfold Py.total. induction Hall as [|[k v] l Hv _ IH]; cbn in *; lia.
Qed.

(** X9: when no count is negative and the threshold is positive, each
    entry of the filtered dictionary other than the added one stands for at
    least [threshold] counts: the number of entries, less one, times the
    threshold is at most the total of the counts (at most 34 entries for
    1000 shots and the threshold 30). *)
Theorem plotted_entries_bounded (answer : gmap string Z) (threshold : Z) :
  (∀ k v, answer !! k = Some v → 0 ≤ v) →
  0 < threshold →
  (Z.of_nat (size (filter_counts answer threshold)) - 1) * threshold ≤ values_sum answer.
Proof.
  intros Hpos Ht. rewrite filter_counts_eq.
  pose proof (values_sum_split threshold answer) as Hsplit.
  assert (0 ≤ values_sum (insignificant threshold answer)) as Hsmall.
  { apply values_sum_nonneg. intros k v [Hk _]%map_lookup_filter_Some. by eapply Hpos. }
  pose proof (total_lower _ _ (items_significant threshold answer)) as Hlow.
  rewrite length_map_to_list in Hlow. fold (values_sum (significant threshold answer)) in Hlow.
  assert (size (<["other_bitstring" :=
                     Py.wrap64 (values_sum (insignificant threshold answer))]>
                  (significant threshold answer))
          ≤ S (size (significant threshold answer)))%nat as Hsize.
  { rewrite map_size_insert. destruct (_ !! _); cbn; lia. }
  nia.
Qed.

Lemma plotted_entries_bounded_witness :
  (∀ k v, sample_counts !! k = Some v → 0 ≤ v)
  ∧ 0 < 30
  ∧ (Z.of_nat (size (filter_counts sample_counts 30)) - 1) * 30 ≤ values_sum sample_counts.
Proof.
  assert (∀ k v, sample_counts !! k = Some v → 0 ≤ v) as Hpos.
  { intros k v Hk. destruct (sample_counts_lookup k v Hk) as [->|[->| ->]]; lia. }
  assert (0 < 30) as Ht by lia.
  split; [done|]. split; [done|].
  exact (plotted_entries_bounded sample_counts 30 Hpos Ht).
Defined.

(** X10: when no count is below the threshold (in particular for an empty
    dictionary), the filtering keeps every entry and only sets
    ['other_bitstring'] to 0. *)
Theorem filtering_keeps_significant (answer : gmap string Z) (threshold : Z) :
  (∀ k v, answer !! k = Some v → threshold ≤ v) →
  filter_counts answer threshold = <["other_bitstring" := 0]> answer.
Proof.
  intros Hall. rewrite filter_counts_eq. unfold significant, insignificant.
  rewrite (map_filter_id (λ kv : string * Z, threshold ≤ kv.2))
    by (intros k v Hk; by eapply Hall).
  rewrite (map_empty_filter_2 (λ kv : string * Z, kv.2 < threshold)).
  - by rewrite values_sum_empty.
  - intros k v Hk. cbn. specialize (Hall k v Hk). lia.
Qed.

Lemma filtering_keeps_significant_witness :
  (∀ k v, ({["000000000000000" := 1000]} : gmap string Z) !! k = Some v → 30 ≤ v)
  ∧ filter_counts {["000000000000000" := 1000]} 30
    = <["other_bitstring" := 0]> {["000000000000000" := 1000]}.
Proof.
  assert (∀ k v, ({["000000000000000" := 1000]} : gmap string Z) !! k = Some v → 30 ≤ v)
    as Hall.
  { intros k v [_ <-]%lookup_singleton_Some. lia. }
  split; [done|]. exact (filtering_keeps_significant _ 30 Hall).
Defined.

(** X11: when every count is below the threshold and is an [int64] value,
    the filtered dictionary is the single entry ['other_bitstring'] with the
    total of the counts as [np.sum] gives it: reduced into [int64] by
    wrap-around, and so the total itself when that fits. *)
Theorem filtering_merges_insignificant (answer : gmap string Z) (threshold : Z) :
  (∀ k v, answer !! k = Some v → v < threshold) →
  (∀ k v, answer !! k = Some v → Py.int64 v) →
  filter_counts answer threshold = {["other_bitstring" := Py.wrap64 (values_sum answer)]}
  ∧ (Py.int64 (values_sum answer) →
     filter_counts answer threshold = {["other_bitstring" := values_sum answer]}).
Proof.
  intros Hall Hfit.
  assert (filter_counts answer threshold
          = {["other_bitstring" := Py.wrap64 (values_sum answer)]}) as Heq.
  { rewrite filter_counts_eq. unfold significant, insignificant.
    rewrite (map_filter_id (λ kv : string * Z, kv.2 < threshold))
      by (intros k v Hk; by eapply Hall).
    rewrite (map_empty_filter_2 (λ kv : string * Z, threshold ≤ kv.2)).
    - apply insert_empty.
    - intros k v Hk. cbn. specialize (Hall k v Hk). lia. }
  split; [done|]. intros Hsum. by rewrite Heq, wrap64_int64.
Qed.

Lemma filtering_merges_insignificant_witness :
  (∀ k v, sample_counts !! k = Some v → v < 1001)
  ∧ (∀ k v, sample_counts !! k = Some v → Py.int64 v)
  ∧ Py.int64 (values_sum sample_counts)
  ∧ filter_counts sample_counts 1001 = {["other_bitstring" := values_sum sample_counts]}.
Proof.
  assert (∀ k v, sample_counts !! k = Some v → v < 1001) as Hall.
  { intros k v Hk. destruct (sample_counts_lookup k v Hk) as [->|[->| ->]]; lia. }
  assert (∀ k v, sample_counts !! k = Some v → Py.int64 v) as Hfit.
  { intros k v Hk. unfold Py.int64.
    destruct (sample_counts_lookup k v Hk) as [->|[->| ->]]; lia. }
  assert (Py.int64 (values_sum sample_counts)) as Hsum by (by vm_compute).
  split; [done|]. split; [done|]. split; [done|].
  exact (proj2 (filtering_merges_insignificant sample_counts 1001 Hall Hfit) Hsum).
Defined.

(** X12: when the counts below the threshold are [int64] values whose sum is
    one too, the filtering changes the total of the counts by exactly the
    count of an entry ['other_bitstring'] of [answer] that reaches the
    threshold, which the added entry overwrites; without such an entry the
    total is kept. *)
Theorem filtering_total (answer : gmap string Z) (threshold : Z) :
  small_counts_fit threshold answer →
  values_sum (filter_counts answer threshold)
  = values_sum answer - default 0 (significant threshold answer !! "other_bitstring").
Proof.
  intros Hfit. rewrite filter_counts_fit by done.
  rewrite <-insert_delete_eq, values_sum_insert by apply lookup_delete_eq.
  pose proof (values_sum_delete (significant threshold answer) "other_bitstring").
  pose proof (values_sum_split threshold answer). lia.
Qed.

Lemma filtering_total_witness :
  small_counts_fit 30 {["other_bitstring" := 50; "000000000000000" := 7]}
  ∧ values_sum (filter_counts {["other_bitstring" := 50; "000000000000000" := 7]} 30)
    = values_sum {["other_bitstring" := 50; "000000000000000" := 7]}
      - default 0 (significant 30 {["other_bitstring" := 50; "000000000000000" := 7]}
                     !! "other_bitstring").
Proof.
  assert (small_counts_fit 30 {["other_bitstring" := 50; "000000000000000" := 7]})
    as Hfit.
  { split; [|by vm_compute]. intros k v.
    rewrite lookup_insert_Some, lookup_singleton_Some. unfold Py.int64.
    intros [[_ <-]|[_ [_ <-]]] _; lia. }
  split; [done|]. exact (filtering_total _ 30 Hfit).
Defined.

(** ** The calls to the backends *)

Lemma executes_of_app tr1 tr2 :
  executes_of (tr1 ++ tr2) = executes_of tr1 ++ executes_of tr2.
Proof. apply omap_app. Qed.

Lemma executes_of_other_steps tr :
  Forall (λ ev, step_of ev ≠ Backend) tr → executes_of tr = [].
Proof.
  induction 1 as [|ev tr Hev _ IH]; [done|].
  cbn. destruct ev; done.
Qed.

(** X13: in every run [execute] is called at most twice, first for the
    simulator and then, with the timeout of 480, for the device, each time
    for the circuit ["DeutschJosza"] with 1000 shots: no call is repeated,
    and the device is never called before the simulator. *)
Theorem backends_called_once_in_order (w : World) :
  executes_of (trace (notebook w initial).2)
  `prefix_of` [EvExecute [circuitName] simulator 1000 None;
               EvExecute [circuitName] device 1000 (Some 480)].
Proof.
  destruct (notebook_runs_spec w) as (res & tr & d & -> & Hrun). cbn [snd trace].
  destruct Hrun as [Hlt|e _ Hapi|res evs _ Hapi Hback].
  - by eexists.
  - by eexists.
  - rewrite executes_of_app,
      (executes_of_other_steps _ (step_of_cell9_trace w n 0)), app_nil_l.
    destruct Hback as [e He|r e He Hc|r answer e He Hc Hp|r answer res evs He Hc Hp Hdev];
      [by eexists..|].
    destruct Hdev; by eexists.
Qed.

(** Where a [get_counts] sits among the events of cells 11 and 13. *)
Lemma backend_runs_get_counts w tr0 res evs (j : nat) r name :
  backend_runs w tr0 res evs →
  evs !! j = Some (EvGetCounts r name) →
  ∃ backend shots timeout,
    (1 ≤ j)%nat
    ∧ evs !! (j - 1)%nat = Some (EvExecute [circuitName] backend shots timeout)
    ∧ execute_outcome w (gates_of (tr0 ++ take (j - 1) evs)) backend shots timeout = inr r
    ∧ name = circuitName.
Proof.
  intros Hrun Hj.
  destruct Hrun as [e He|r0 e He Hc|r0 answer e He Hc Hp|r0 answer res evs He Hc Hp Hdev];
    [| | |destruct Hdev as [e' He'|r' e' He' Hc'|r' answer' e' He' Hc' Hp'
                            |r' answer' He' Hc' Hp']];
    cbn [app] in Hj;
    find_event j Hj ltac:(
      injection Hj as <- <-;
      do 3 eexists; (split_and!; [lia | reflexivity | | reflexivity]);
      cbn [Nat.sub take app]; rewrite ?app_nil_r; eassumption).
Qed.

Lemma notebook_execute_circuit w (j : nat) names backend shots timeout :
  trace (notebook w initial).2 !! j = Some (EvExecute names backend shots timeout) →
  gates_of (take j (trace (notebook w initial).2)) = gates_of (cell9_trace w n 0).
Proof.
  destruct (notebook_runs_spec w) as (res & tr & d & -> & Hrun). cbn [snd trace].
  intros Hj. destruct Hrun as [Hlt|e _ Hapi|res evs _ Hapi Hback].
  - by rewrite lookup_nil in Hj.
  - by destruct j as [|[|j]].
  - destruct (lookup_after _ _ Backend _ _ (step_of_cell9_trace w n 0) Hj eq_refl)
      as [Hlen _].
    rewrite take_app_ge, gates_of_app by done.
    rewrite (gates_of_other_steps (take _ evs)); [apply app_nil_r|].
    apply Forall_take, (other_step Backend Construction); [done|].
    by eapply step_of_backend_runs.
Qed.

(** X14: every [get_counts] of a run directly follows an [execute] of the
    circuit ["DeutschJosza"], is asked for that circuit, and is called on
    the results which that [execute] returned. *)
Theorem get_counts_follows_execute (w : World) (j : nat) (r : nat) (name : string) :
  trace (notebook w initial).2 !! S j = Some (EvGetCounts r name) →
  ∃ backend shots timeout,
    trace (notebook w initial).2 !! j = Some (EvExecute [circuitName] backend shots timeout)
    ∧ execute_outcome w (gates_of (take j (trace (notebook w initial).2)))
        backend shots timeout = inr r
    ∧ name = circuitName.
Proof.
  destruct (notebook_runs_spec w) as (res & tr & d & -> & Hrun). cbn [snd trace].
  intros Hj. destruct Hrun as [Hlt|e _ Hapi|res evs _ Hapi Hback].
  - by rewrite lookup_nil in Hj.
  - by destruct j.
  - destruct (lookup_after _ _ Backend _ _ (step_of_cell9_trace w n 0) Hj eq_refl)
      as [Hlen Hj'].
    destruct (backend_runs_get_counts _ _ _ _ _ _ _ Hback Hj')
      as (backend & shots & timeout & Hpos & Hexec & Hout & ->).
    exists backend, shots, timeout. split_and!; [| |done].
    + rewrite lookup_app_r by lia. rewrite <-Hexec. f_equal. lia.
    + rewrite take_app_ge by lia.
      by replace (j - length (cell9_trace w n 0))%nat
        with (S j - length (cell9_trace w n 0) - 1)%nat by lia.
Qed.

Lemma get_counts_follows_execute_witness :
  trace (notebook sample_world initial).2 !! 62%nat = Some (EvGetCounts 1 circuitName)
  ∧ ∃ backend shots timeout,
      trace (notebook sample_world initial).2 !! 61%nat
        = Some (EvExecute [circuitName] backend shots timeout)
      ∧ execute_outcome sample_world
          (gates_of (take 61 (trace (notebook sample_world initial).2)))
          backend shots timeout = inr 1%nat
      ∧ circuitName = circuitName.
Proof.
  assert (trace (notebook sample_world initial).2 !! 62%nat
          = Some (EvGetCounts 1 circuitName)) as H62 by (by vm_compute).
  split; [done|].
  exact (get_counts_follows_execute sample_world 61 1 circuitName H62).
Defined.

(** X15: the simulator and the device are handed the same circuit: at any
    two [execute] calls of a run the gates appended so far are the same. *)
Theorem backends_run_same_circuit (w : World) (j j' : nat)
    names backend shots timeout names' backend' shots' timeout' :
  trace (notebook w initial).2 !! j = Some (EvExecute names backend shots timeout) →
  trace (notebook w initial).2 !! j' = Some (EvExecute names' backend' shots' timeout') →
  gates_of (take j (trace (notebook w initial).2))
  = gates_of (take j' (trace (notebook w initial).2)).
Proof.
  intros Hj Hj'.
  by rewrite (notebook_execute_circuit w j _ _ _ _ Hj),
    (notebook_execute_circuit w j' _ _ _ _ Hj').
Qed.

Lemma backends_run_same_circuit_witness :
  trace (notebook sample_world initial).2 !! 58%nat
    = Some (EvExecute [circuitName] simulator 1000 None)
  ∧ trace (notebook sample_world initial).2 !! 61%nat
    = Some (EvExecute [circuitName] device 1000 (Some 480))
  ∧ gates_of (take 58 (trace (notebook sample_world initial).2))
    = gates_of (take 61 (trace (notebook sample_world initial).2)).
Proof.
  assert (trace (notebook sample_world initial).2 !! 58%nat
          = Some (EvExecute [circuitName] simulator 1000 None)) as H58 by (by vm_compute).
  assert (trace (notebook sample_world initial).2 !! 61%nat
          = Some (EvExecute [circuitName] device 1000 (Some 480))) as H61 by (by vm_compute).
  split; [done|]. split; [done|].
  exact (backends_run_same_circuit sample_world 58 61 _ _ _ _ _ _ _ _ H58 H61).
Defined.

(** ** The threshold *)

Lemma threshold_exact_range : forallb threshold_exact (seqZ 0 10001) = true.
Proof. by vm_compute. Qed.

(** X16: for every number of shots from 0 to 10000, the binary rounding of
    [0.03] and of the product does not show: [int(0.03 * shots)] is exactly
    the integer part of [3 * shots / 100]. *)
Theorem threshold_is_three_percent (shots : Z) :
  0 ≤ shots ≤ 10000 →
  threshold_of shots = Some (3 * shots / 100).
Proof.
  intros Hs. pose proof threshold_exact_range as Hall.
  rewrite forallb_forall in Hall. specialize (Hall shots).
  unfold threshold_exact in Hall.
  destruct (threshold_of shots) as [t|].
  - f_equal. apply Z.eqb_eq, Hall, list_elem_of_In, elem_of_seqZ. lia.
  - discriminate Hall. apply list_elem_of_In, elem_of_seqZ. lia.
Qed.

Lemma threshold_is_three_percent_witness :
  0 ≤ 1000 ≤ 10000 ∧ threshold_of 1000 = Some (3 * 1000 / 100).
Proof.
  assert (0 ≤ 1000 ≤ 10000) as Hs by lia.
  split; [done|]. exact (threshold_is_three_percent 1000 Hs).
Defined.

(** ** The oracles that can be selected *)

(** X17: for a register of 1 to 63 query qubits, every constant oracle and
    every balanced oracle with a mask [1 <= a < 2^n] is selected in some
    run: the selection step leaves out none of the parameters in the ranges
    it draws from. *)
Theorem every_oracle_selectable (n : nat) (oracleType oracleValue : Z) (a : option Z) :
  (1 ≤ n ≤ 63)%nat →
  0 ≤ oracleValue < 2 →
  (oracleType = 0 ∧ a = None)
  ∨ (oracleType = 1 ∧ ∃ v, a = Some v ∧ 1 ≤ v < 2 ^ Z.of_nat n) →
  ∃ w, (select_parameters w n initial).1 = inr (oracleType, oracleValue, a).
Proof.
  intros Hn HoV Hparams.
  set (v := match a with Some v => v | None => 1 end).
  exists (Build_World [] (λ d, match d with
                              | O => oracleType
                              | S O => oracleValue
                              | _ => v - 1
                              end)
            None (λ _ _ _ _, inr 0%nat) (λ _ _, inr ∅) (λ _, None)).
  destruct (select_parameters_run
    (Build_World [] (λ d, match d with
                          | O => oracleType
                          | S O => oracleValue
                          | _ => v - 1
                          end)
       None (λ _ _ _ _, inr 0%nat) (λ _ _, inr ∅) (λ _, None)) n initial Hn) as [d ->].
  cbn [fst]. f_equal. unfold selected, draw. cbn [entropy draws initial].
  destruct Hparams as [[-> ->]|[-> (v' & -> & Hv)]].
  - rewrite decide_True by done. rewrite !Z.add_0_l, Z.sub_0_r.
    by rewrite (Z.mod_small oracleValue) by lia.
  - rewrite decide_False by done. rewrite !Z.add_0_l, Z.sub_0_r.
    rewrite (Z.mod_small oracleValue) by lia. subst v. cbn [Z.modulo].
    rewrite (Z.mod_small (v' - 1)) by lia.
    change (1 `mod` 2) with 1. do 3 f_equal. lia.
Qed.

Lemma every_oracle_selectable_witness :
  (1 ≤ n ≤ 63)%nat ∧ 0 ≤ 1 < 2
  ∧ ∃ w, (select_parameters w n initial).1 = inr (1, 1, Some 12345).
Proof.
  assert (0 ≤ 1 < 2) as HoV by lia.
  assert (1 ≤ 12345 < 2 ^ Z.of_nat n) as Hv by (by vm_compute).
  split; [apply n_bounds|]. split; [done|].
  apply (every_oracle_selectable n 1 1 (Some 12345) n_bounds HoV).
  right. split; [done|]. by exists 12345.
Defined.

(** ** What is printed about the oracle *)

Lemma gates_of_notebook_trace w res evs :
  backend_runs w (cell9_trace w n 0) res evs →
  gates_of (cell9_trace w n 0 ++ evs)
  = djCircuit n (selected w n 0).1.1 (selected w n 0).1.2 (selected w n 0).2.
Proof.
  intros Hback. rewrite gates_of_app, gates_of_cell9_trace by apply n_positive.
  rewrite (gates_of_other_steps evs); [apply app_nil_r|].
  apply (other_step Backend Construction); [done|].
  by eapply step_of_backend_runs.
Qed.

Lemma print_in_cell9_trace w res evs msg arg :
  backend_runs w (cell9_trace w n 0) res evs →
  EvPrint msg arg ∈ cell9_trace w n 0 ++ evs →
  EvPrint msg arg ∈ selection_trace n (selected w n 0).
Proof.
  intros Hback. unfold cell9_trace.
  rewrite elem_of_app, elem_of_cons, elem_of_app.
  intros [[[=]|[Hsel|Hbuild]]|Hevs]; [done| |].
  - pose proof (step_of_build_events n (selected w n 0)) as Hall.
    rewrite list.Forall_forall in Hall. by specialize (Hall _ Hbuild).
  - pose proof (step_of_backend_runs _ _ _ _ Hback) as Hall.
    rewrite list.Forall_forall in Hall. by specialize (Hall _ Hevs).
Qed.

(** X18: what cell 9 prints about the oracle is what it builds. In a run
    that prints "The oracle returns a constant value " [v], the value is 0
    or 1 and the gates between the barriers are the single gate of the
    constant oracle of value [v]; in a run that prints "The oracle returns a
    balanced function", they are the CNOTs of a hidden parameter
    [1 <= a < 2^n]. *)
Theorem printed_oracle_is_built (w : World) :
  let tr := trace (notebook w initial).2 in
  (∀ v, EvPrint "The oracle returns a constant value " (Some v) ∈ tr →
     (v = 0 ∨ v = 1)
     ∧ gates_of tr =
         circuit_prefix n
         ++ [if decide (v = 1) then gate_x (qr_of n, n) else gate_iden (qr_of n, n)]
         ++ circuit_suffix n)
  ∧ (EvPrint "The oracle returns a balanced function" None ∈ tr →
     ∃ a, 1 ≤ a < 2 ^ Z.of_nat n
          ∧ gates_of tr = circuit_prefix n ++ cx_gates (qr_of n) n a n ++ circuit_suffix n).
Proof.
  intros tr. subst tr.
  destruct (notebook_runs_spec w) as (res & tr & d & -> & Hrun). cbn [snd trace].
  pose proof (pow2_gt_1 n n_positive) as Hpow.
  pose proof (draw_range w 0 0 2 ltac:(lia)) as HoT.
  pose proof (draw_range w 1 0 2 ltac:(lia)) as HoV.
  pose proof (draw_range w 2 1 (2 ^ Z.of_nat n) ltac:(lia)) as Ha.
  destruct Hrun as [Hlt|e _ Hapi|res evs _ Hapi Hback].
  - split; [intros v|]; intros []%elem_of_nil.
  - split; [intros v|]; intros [=]%list_elem_of_singleton.
  - split; [intros v|]; intros Hprint%(print_in_cell9_trace _ _ _ _ _ Hback);
      rewrite (gates_of_notebook_trace _ _ _ Hback);
      pose proof (selected_bound w n 0) as Hb;
      rewrite djCircuit_bound by (done || apply n_positive);
      unfold selected, selection_trace in *; cbn [fst snd] in *;
      destruct (decide (draw w 0 0 2 = 0)) as [Hconst|Hbal];
      rewrite ?Hconst in *;
      repeat (apply elem_of_cons in Hprint as [[=]|Hprint]);
      try (by apply elem_of_nil in Hprint); subst.
    + split; [lia|]. by rewrite oracle_gates_constant.
    + eexists. split; [exact Ha|]. by rewrite oracle_gates_balanced.
Qed.

Lemma printed_oracle_is_built_witness :
  EvPrint "The oracle returns a balanced function" None
    ∈ trace (notebook sample_world initial).2
  ∧ ∃ a, 1 ≤ a < 2 ^ Z.of_nat n
         ∧ gates_of (trace (notebook sample_world initial).2)
           = circuit_prefix n ++ cx_gates (qr_of n) n a n ++ circuit_suffix n.
Proof.
  assert (EvPrint "The oracle returns a balanced function" None
            ∈ trace (notebook sample_world initial).2) as Hprint.
  { apply list_elem_of_lookup. exists 3%nat. by vm_compute. }
  split; [done|]. exact (proj2 (printed_oracle_is_built sample_world) Hprint).
Defined.
